(** * parts_data: the GPU and CPU listing exporters

    A shallow embedding of [am_atgpu.py], [nvgpu.py] and [intcpu.py]:
    the record normaliser, the console filter, the deduplicating sorter,
    the line writer and the clock-frequency formatter, with the Python
    built-ins they call ([str] methods, [float] arithmetic, [round],
    fixed-point formatting, [sorted], [dict.setdefault], [set]). *)

From Stdlib Require Import ZArith NArith List Bool Lia Ascii String.
From Stdlib Require Import Permutation Sorted DecimalString.
From Stdlib Require Import Floats.SpecFloat.
Import ListNotations.

Set Implicit Arguments.

(* ================================================================= *)
(** ** Python strings *)

(** A Python [str] is a sequence of Unicode code points. *)
Module PyStr.

Local Open Scope N_scope.

Definition str := list N.

(** An ASCII literal, code point by code point. *)
Definition lit (s : string) : str :=
  List.map N_of_ascii (list_ascii_of_string s).

(** The quotation mark, U+0022. *)
Definition dquote : N := 34.
(** The line feed, U+000A. *)
Definition newline : N := 10.

(** [a == b] on strings. *)
Fixpoint str_eqb (a b : str) : bool :=
  match a, b with
  | [], [] => true
  | x :: a', y :: b' => N.eqb x y && str_eqb a' b'
  | _, _ => false
  end.

(** The three-way comparison behind [<] on strings: lexicographic on
    code points, a proper prefix first. *)
Fixpoint str_compare (a b : str) : comparison :=
  match a, b with
  | [], [] => Eq
  | [], _ :: _ => Lt
  | _ :: _, [] => Gt
  | x :: a', y :: b' =>
      match N.compare x y with
      | Eq => str_compare a' b'
      | c => c
      end
  end.

(** [str.isspace] on one code point: the white space of
    [str.strip()] called without an argument. *)
Definition isspace (c : N) : bool :=
  ((9 <=? c) && (c <=? 13)) || ((28 <=? c) && (c <=? 32))
  || (c =? 133) || (c =? 160) || (c =? 5760)
  || ((8192 <=? c) && (c <=? 8202))
  || (c =? 8232) || (c =? 8233) || (c =? 8239) || (c =? 8287)
  || (c =? 12288).

Fixpoint dropwhile (p : N -> bool) (s : str) : str :=
  match s with
  | [] => []
  | c :: s' => if p c then dropwhile p s' else s
  end.

Definition lstrip (s : str) : str := dropwhile isspace s.
Definition rstrip (s : str) : str := rev (dropwhile isspace (rev s)).
(** [s.strip()] *)
Definition strip (s : str) : str := rstrip (lstrip s).

(** [s.rstrip(chars)] *)
Definition rstrip_chars (chars s : str) : str :=
  rev (dropwhile (fun c => existsb (N.eqb c) chars) (rev s)).

(** [s.startswith(m)] *)
Fixpoint startswith (s m : str) : bool :=
  match m, s with
  | [], _ => true
  | _ :: _, [] => false
  | x :: m', y :: s' => N.eqb x y && startswith s' m'
  end.

(** [m in n] for strings: [m] occurs in [n] as a contiguous run. *)
Fixpoint str_in (m n : str) : bool :=
  startswith n m ||
  match n with
  | [] => false
  | _ :: n' => str_in m n'
  end.

(** [s.split(sep)] for a one-character separator: never empty. *)
Fixpoint split (sep : N) (s : str) : list str :=
  match s with
  | [] => [[]]
  | c :: s' =>
      if N.eqb c sep then [] :: split sep s'
      else match split sep s' with
           | [] => [[c]]
           | p :: ps => (c :: p) :: ps
           end
  end.

(** [s.split(sep, 1)] unpacked into two names, for [s] that holds [sep]:
    the text before the first separator and the text after it. *)
Fixpoint split_once (sep : N) (s : str) : str * str :=
  match s with
  | [] => ([], [])
  | c :: s' =>
      if N.eqb c sep then ([], s')
      else let '(a, b) := split_once sep s' in (c :: a, b)
  end.

(** [sep.join(parts)] *)
Fixpoint join (sep : str) (parts : list str) : str :=
  match parts with
  | [] => []
  | [p] => p
  | p :: ps => p ++ sep ++ join sep ps
  end.

(** [s.replace(c, "")] for a one-character [c]. *)
Definition remove_char (c : N) (s : str) : str :=
  filter (fun x => negb (N.eqb x c)) s.

(** [str(z)] for an [int]. *)
Definition str_of_int (z : Z) : str :=
  lit (NilZero.string_of_int (Z.to_int z)).

(** [x or default] on an optional string: [None] and [""] are falsy. *)
Definition or_default (x : option str) (default : str) : str :=
  match x with
  | None => default
  | Some [] => default
  | Some s => s
  end.

(** [not s] *)
Definition is_empty (s : str) : bool :=
  match s with [] => true | _ => false end.

(** [not l] for a list. *)
Definition is_empty_list (A : Type) (l : list A) : bool :=
  match l with [] => true | _ => false end.

(** The lower-case form of an ASCII code point; other code points are
    left alone. *)
Definition ascii_lower (c : N) : N :=
  if (65 <=? c) && (c <=? 90) then c + 32 else c.

(** The line boundaries of [str.splitlines]: line feed, carriage
    return, vertical tab, form feed, the file, group and record
    separators, next line, line separator and paragraph separator. *)
Definition is_linebreak (c : N) : bool :=
  ((10 <=? c) && (c <=? 13)) || ((28 <=? c) && (c <=? 30))
  || (c =? 133) || (c =? 8232) || (c =? 8233).

(** [s.splitlines()]: the lines without their boundaries; a carriage
    return followed by a line feed is one boundary, and a boundary at
    the very end opens no further line. *)
Fixpoint splitlines (s : str) : list str :=
  match s with
  | [] => []
  | c :: s' =>
      if is_linebreak c then
        match s' with
        | d :: s'' =>
            if (c =? 13) && (d =? 10) then [] :: splitlines s''
            else [] :: splitlines s'
        | [] => [] :: splitlines s'
        end
      else
        match splitlines s' with
        | [] => [[c]]
        | l :: ls => (c :: l) :: ls
        end
  end.

End PyStr.
Import PyStr.

(* ================================================================= *)
(** ** Exceptions *)

Inductive exn : Type := ValueError | OverflowError.

Inductive result (A : Type) : Type :=
| Ok (a : A)
| Raise (e : exn).
Arguments Ok {A} a.
Arguments Raise {A} e.

Definition bind {A B : Type} (r : result A) (k : A -> result B) : result B :=
  match r with
  | Ok a => k a
  | Raise e => Raise e
  end.

Notation "x <- r ;; k" := (bind r (fun x => k))
  (at level 61, r at next level, right associativity).

(* ================================================================= *)
(** ** Python numbers *)

(** A Python [float] is an IEEE 754 binary64 value; the Standard
    Library's [spec_float] with 53 bits of precision is its
    specification. *)
Module PyFloat.

Local Open Scope Z_scope.

Definition float := spec_float.
Definition prec : Z := 53.
Definition emax : Z := 1024.

Definition fmul : float -> float -> float := SFmul prec emax.
Definition fdiv : float -> float -> float := SFdiv prec emax.
Definition fsub : float -> float -> float := SFsub prec emax.
Definition fabs : float -> float := SFabs.
Definition fltb : float -> float -> bool := SFltb.
Definition fleb : float -> float -> bool := SFleb.
Definition feqb : float -> float -> bool := SFeqb.

(** [float(z)] for an [int] in the range of a float: the nearest
    float, ties to even. *)
Definition float_of_int (z : Z) : float := binary_normalize prec emax z 0 false.

(** The literal [0.0]. *)
Definition zero : float := S754_zero false.

(** The decimal literal [n / 10^k] with [n] and [10^k] below [2^53]:
    the correctly rounded quotient of two exact floats is the float
    nearest to the decimal. *)
Definition decimal (n : Z) (k : Z) : float :=
  fdiv (float_of_int n) (float_of_int (10 ^ k)).

Definition is_finite (x : float) : bool :=
  match x with
  | S754_zero _ | S754_finite _ _ _ => true
  | _ => false
  end.

Definition is_nan (x : float) : bool :=
  match x with
  | S754_nan => true
  | _ => false
  end.

(** The integer nearest to [a / b] for [0 < b], ties to the even one. *)
Definition round_half_even_div (a b : Z) : Z :=
  let q := a / b in
  match (2 * (a mod b)) ?= b with
  | Lt => q
  | Gt => q + 1
  | Eq => if Z.even q then q else q + 1
  end.

(** The integer nearest to [m * 2^e * 10^k], ties to even, for [0 <= k]. *)
Definition scaled_round (m : positive) (e : Z) (k : Z) : Z :=
  if 0 <=? e then Z.pos m * 2 ^ e * 10 ^ k
  else round_half_even_div (Z.pos m * 10 ^ k) (2 ^ (- e)).

(** [round(x)] for a float, with no digit count: an [int], ties to
    even; NaN raises [ValueError], an infinity [OverflowError]. *)
Definition round_to_int (x : float) : result Z :=
  match x with
  | S754_nan => Raise ValueError
  | S754_infinity _ => Raise OverflowError
  | S754_zero _ => Ok 0
  | S754_finite s m e =>
      let n := scaled_round m e 0 in
      Ok (if s then - n else n)
  end.

(** [round(x, 3)]: the exact value is rounded to 3 decimals, ties to
    even, and the decimal is read back as the nearest float; NaN and
    the infinities round to themselves, and the sign of a zero result
    is kept. *)
Definition round3 (x : float) : float :=
  match x with
  | S754_finite s m e =>
      match scaled_round m e 3 with
      | Z.pos n => fdiv (S754_finite s n 0) (S754_finite false 1000 0)
      | _ => S754_zero s
      end
  | _ => x
  end.

(** Three decimal digits of [0 <= n < 1000]. *)
Definition digits3 (n : Z) : str :=
  [Z.to_N (48 + n / 100); Z.to_N (48 + (n / 10) mod 10); Z.to_N (48 + n mod 10)].

(** [f"{x:.3f}"] for a float: sign, integer part, point, three digits,
    of the exact value rounded ties to even. *)
Definition format_3f (x : float) : str :=
  match x with
  | S754_nan => lit "nan"
  | S754_infinity s => (if s then lit "-" else []) ++ lit "inf"
  | S754_zero s => (if s then lit "-" else []) ++ lit "0.000"
  | S754_finite s m e =>
      let n := scaled_round m e 3 in
      (if s then lit "-" else [])
        ++ str_of_int (n / 1000) ++ lit "." ++ digits3 (n mod 1000)
  end.

(** [a < f] for an [int] and a float, compared exactly. *)
Definition int_lt_float (a : Z) (f : float) : bool :=
  match f with
  | S754_nan => false
  | S754_infinity s => negb s
  | S754_zero _ => a <? 0
  | S754_finite s m e =>
      let v := if s then Z.neg m else Z.pos m in
      if 0 <=? e then a <? v * 2 ^ e else a * 2 ^ (- e) <? v
  end.

End PyFloat.
Import PyFloat.

(** A number as the scripts receive it: an [int] or a [float]. *)
Inductive number : Type :=
| Int (z : Z)
| Float (f : float).

Module PyNum.

Local Open Scope Z_scope.

(** [x <= 0] *)
Definition le_zero (x : number) : bool :=
  match x with
  | Int z => z <=? 0
  | Float f => fleb f zero
  end.

(** [round(x)] *)
Definition round (x : number) : result Z :=
  match x with
  | Int z => Ok z
  | Float f => round_to_int f
  end.

(** [x - n] for an [int] [n] *)
Definition sub_int (x : number) (n : Z) : number :=
  match x with
  | Int z => Int (z - n)
  | Float f => Float (fsub f (float_of_int n))
  end.

(** [abs(x)] *)
Definition abs (x : number) : number :=
  match x with
  | Int z => Int (Z.abs z)
  | Float f => Float (fabs f)
  end.

(** [x < c] for a float [c] *)
Definition lt_float (x : number) (c : float) : bool :=
  match x with
  | Int z => int_lt_float z c
  | Float f => fltb f c
  end.

(** [f"{x:.3f}"] *)
Definition format_3f (x : number) : str :=
  match x with
  | Int z => str_of_int z ++ lit ".000"
  | Float f => PyFloat.format_3f f
  end.

End PyNum.

(* ================================================================= *)
(** ** Python containers and files *)

(** A [dict] keeps its keys in insertion order: an association list
    whose keys are pairwise different. *)
Module PyDict.
Section Dict.
Variables K V : Type.
Variable keqb : K -> K -> bool.

Definition dict := list (K * V).

Fixpoint get (d : dict) (k : K) : option V :=
  match d with
  | [] => None
  | (k', v) :: d' => if keqb k' k then Some v else get d' k
  end.

(** [d.setdefault(k, v)], the dictionary afterwards: a key already
    present keeps its value and its place. *)
Definition setdefault (d : dict) (k : K) (v : V) : dict :=
  match get d k with
  | Some _ => d
  | None => d ++ [(k, v)]
  end.

(** [d.values()], in insertion order. *)
Definition values (d : dict) : list V := List.map snd d.
End Dict.
End PyDict.

(** Assignment to a key and [dict.update]. *)
Module PyDictOps.
Section Ops.
Variables K V : Type.
Variable keqb : K -> K -> bool.

(** [d[k] = v], the dictionary afterwards: the value of a key already
    present is replaced where it stands, a new key goes to the end. *)
Fixpoint setitem (d : PyDict.dict K V) (k : K) (v : V) : PyDict.dict K V :=
  match d with
  | [] => [(k, v)]
  | (k', v') :: d' =>
      if keqb k' k then (k', v) :: d' else (k', v') :: setitem d' k v
  end.

(** [d.update(other)] *)
Definition update (d other : PyDict.dict K V) : PyDict.dict K V :=
  fold_left (fun d e => setitem d (fst e) (snd e)) other d.
End Ops.
End PyDictOps.

(** [sorted(l, key=key)]: a stable sort that compares keys with [<]
    only. *)
Section Sorted.
Variables A K : Type.
Variable key : A -> K.
Variable ltb : K -> K -> bool.

Fixpoint insert_sorted (x : A) (l : list A) : list A :=
  match l with
  | [] => [x]
  | y :: l' =>
      if ltb (key y) (key x) then y :: insert_sorted x l'
      else x :: l
  end.

Fixpoint sorted (l : list A) : list A :=
  match l with
  | [] => []
  | x :: l' => insert_sorted x (sorted l')
  end.
End Sorted.

(** [<] on a 3-tuple of strings: lexicographic. *)
Definition tuple3_compare (a b : str * str * str) : comparison :=
  let '(a1, a2, a3) := a in
  let '(b1, b2, b3) := b in
  match str_compare a1 b1 with
  | Eq => match str_compare a2 b2 with
          | Eq => str_compare a3 b3
          | c => c
          end
  | c => c
  end.

Definition tuple3_ltb (a b : str * str * str) : bool :=
  match tuple3_compare a b with Lt => true | _ => false end.

Definition tuple3_eqb (a b : str * str * str) : bool :=
  let '(a1, a2, a3) := a in
  let '(b1, b2, b3) := b in
  str_eqb a1 b1 && str_eqb a2 b2 && str_eqb a3 b3.

(** Paths and the files behind them: the directories that exist and
    the text of each file. *)
Module PyPath.

Definition path := list str.

Record filesystem : Type := {
  dirs : list path;
  files : list (path * str)
}.

Definition path_eqb (p q : path) : bool :=
  if list_eq_dec (list_eq_dec N.eq_dec) p q then true else false.

(** [p.parent] *)
Definition parent (p : path) : path := removelast p.

(** The path and all the directories above it. *)
Fixpoint ancestors (p : path) (n : nat) : list path :=
  match n with
  | O => []
  | S n' => firstn n p :: ancestors p n'
  end.

(** [p.mkdir(parents=True, exist_ok=True)], on a file system where the
    call returns: the directory and the directories above it exist
    afterwards. The call raises instead ([FileExistsError],
    [NotADirectoryError]) when the path or a path above it is a regular
    file; this is not modelled. *)
Definition mkdir_parents (p : path) (fs : filesystem) : filesystem :=
  {| dirs := ancestors p (List.length p) ++ dirs fs; files := files fs |}.

(** [p.write_text(text, encoding="utf-8")], when the call returns: the
    file is created or replaced. The call raises instead when the path
    is a directory or the directory above it does not exist, and, after
    emptying the file, when the text holds a surrogate code point, which
    UTF-8 does not encode; this is not modelled. *)
Definition write_text (p : path) (text : str) (fs : filesystem) : filesystem :=
  {| dirs := dirs fs;
     files := (p, text) :: filter (fun e => negb (path_eqb (fst e) p)) (files fs) |}.

(** [p.read_text()] *)
Definition read_text (p : path) (fs : filesystem) : option str :=
  PyDict.get path_eqb (files fs) p.

End PyPath.
Import PyPath.

(* ================================================================= *)
(** ** The GPU database records *)

Module dbgpu.

(** Modelled from the spec: the raw specification record of the [dbgpu]
    package, which is imported and not part of this repository: a
    manufacturer string, a display name, an optional memory size in
    gigabytes and an optional memory technology label. *)
Record GPUSpecification : Type := {
  manufacturer : str;
  name : option str;
  memory_size_gb : option number;
  memory_type : option str
}.

End dbgpu.

(** The placeholder for a missing value: U+4E0D U+660E. *)
Definition fumei : str := [19981%N; 26126%N].

(** The Unicode tables behind [str.lower] and [str.casefold] are taken
    as given: the sorter receives [lower], which maps a string to its
    lower-case form, and the filter receives [casefold_char], the full
    case folding of one code point, which [str.casefold] applies code
    point by code point. *)
Section Unicode.
Variable casefold_char : N -> str.

Definition casefold (s : str) : str := flat_map casefold_char s.
End Unicode.

(** The tables restricted to ASCII: letters A to Z are lowered, every
    other code point is kept. *)
Definition ascii_lower_str (s : str) : str := List.map ascii_lower s.
Definition ascii_casefold_char (c : N) : str := [ascii_lower c].

(* ================================================================= *)
(** ** am_atgpu.py *)

Module am_atgpu.

Record AmdAtiGpuRow : Type := {
  name : str;
  memory_capacity : str;
  memory_type : str
}.

Definition to_line (self : AmdAtiGpuRow) : str :=
  [dquote] ++ name self ++ [dquote] ++ lit " "
    ++ [dquote] ++ memory_capacity self ++ lit " " ++ memory_type self ++ [dquote].

Definition _format_memory_capacity (memory_size_gb : option number) : result str :=
  match memory_size_gb with
  | None => Ok fumei
  | Some x =>
      if PyNum.le_zero x then Ok (lit "0GB")
      else
        rounded <- PyNum.round x ;;
        if PyNum.lt_float (PyNum.abs (PyNum.sub_int x rounded)) (decimal 1 9)
        then Ok (str_of_int rounded ++ lit "GB")
        else
          let s := rstrip_chars (lit ".") (rstrip_chars (lit "0") (PyNum.format_3f x)) in
          Ok (s ++ lit "GB")
  end.

Definition _row_from_spec (spec : dbgpu.GPUSpecification) : result AmdAtiGpuRow :=
  let name := strip (or_default (dbgpu.name spec) []) in
  mem_capacity <- _format_memory_capacity (dbgpu.memory_size_gb spec) ;;
  let mem_type := strip (or_default (dbgpu.memory_type spec) fumei) in
  Ok {| name := name; memory_capacity := mem_capacity; memory_type := mem_type |}.

Definition console_markers : list str :=
  [lit "playstation"; lit "psx"; lit "xbox"; lit "switch"; lit "nintendo";
   lit "xenos"].

Section Filter.
Variable casefold_char : N -> str.

Definition _is_console_gpu_name (name : str) : bool :=
  let n := casefold casefold_char name in
  existsb (fun m => str_in m n) console_markers.

(** The generator, run to its end: the rows it yields, or the first
    exception raised on the way. *)
Fixpoint iter_amd_ati_gpu_rows (specs : list dbgpu.GPUSpecification)
  : result (list AmdAtiGpuRow) :=
  match specs with
  | [] => Ok []
  | spec :: specs' =>
      if negb (existsb (str_eqb (dbgpu.manufacturer spec)) [lit "AMD"; lit "ATI"])
      then iter_amd_ati_gpu_rows specs'
      else
        row <- _row_from_spec spec ;;
        if is_empty (name row) then iter_amd_ati_gpu_rows specs'
        else if _is_console_gpu_name (name row) then iter_amd_ati_gpu_rows specs'
        else
          rows <- iter_amd_ati_gpu_rows specs' ;;
          Ok (row :: rows)
  end.
End Filter.

Section Sorter.
Variable lower : str -> str.

Definition row_key (r : AmdAtiGpuRow) : str * str * str :=
  (name r, memory_capacity r, memory_type r).

Definition sort_key (r : AmdAtiGpuRow) : str * str * str :=
  (lower (name r), memory_capacity r, memory_type r).

Definition build_unique_sorted_rows (rows : list AmdAtiGpuRow) : list AmdAtiGpuRow :=
  let unique :=
    fold_left (fun unique r => PyDict.setdefault tuple3_eqb unique (row_key r) r)
              rows [] in
  sorted sort_key tuple3_ltb (PyDict.values unique).
End Sorter.

(** The file system afterwards and the number of lines written. *)
Definition write_rows (out_path : path) (rows : list AmdAtiGpuRow) (fs : filesystem)
  : filesystem * nat :=
  let fs1 := mkdir_parents (parent out_path) fs in
  let lines := List.map to_line rows in
  let fs2 :=
    write_text out_path
      (join [newline] lines ++ (if is_empty_list lines then [] else [newline])) fs1 in
  (fs2, List.length lines).

End am_atgpu.

(* ================================================================= *)
(** ** nvgpu.py *)

Module nvgpu.

Record NvidiaGpuRow : Type := {
  name : str;
  memory_capacity : str;
  memory_type : str
}.

Definition to_line (self : NvidiaGpuRow) : str :=
  [dquote] ++ name self ++ [dquote] ++ lit " "
    ++ [dquote] ++ memory_capacity self ++ lit " " ++ memory_type self ++ [dquote].

Definition _format_memory_capacity (memory_size_gb : option number) : result str :=
  match memory_size_gb with
  | None => Ok fumei
  | Some x =>
      if PyNum.le_zero x then Ok (lit "0GB")
      else
        rounded <- PyNum.round x ;;
        if PyNum.lt_float (PyNum.abs (PyNum.sub_int x rounded)) (decimal 1 9)
        then Ok (str_of_int rounded ++ lit "GB")
        else
          let s := rstrip_chars (lit ".") (rstrip_chars (lit "0") (PyNum.format_3f x)) in
          Ok (s ++ lit "GB")
  end.

Definition _row_from_spec (spec : dbgpu.GPUSpecification) : result NvidiaGpuRow :=
  let name := strip (or_default (dbgpu.name spec) []) in
  mem_capacity <- _format_memory_capacity (dbgpu.memory_size_gb spec) ;;
  let mem_type := strip (or_default (dbgpu.memory_type spec) fumei) in
  Ok {| name := name; memory_capacity := mem_capacity; memory_type := mem_type |}.

Definition console_markers : list str :=
  [lit "playstation"; lit "psx"; lit "xbox"; lit "switch"; lit "nintendo";
   lit "tegra"].

Section Filter.
Variable casefold_char : N -> str.

Definition _is_console_gpu_name (name : str) : bool :=
  let n := casefold casefold_char name in
  existsb (fun m => str_in m n) console_markers.

(** The generator, run to its end: the rows it yields, or the first
    exception raised on the way. *)
Fixpoint iter_nvidia_gpu_rows (specs : list dbgpu.GPUSpecification)
  : result (list NvidiaGpuRow) :=
  match specs with
  | [] => Ok []
  | spec :: specs' =>
      if negb (str_eqb (dbgpu.manufacturer spec) (lit "NVIDIA"))
      then iter_nvidia_gpu_rows specs'
      else
        row <- _row_from_spec spec ;;
        if is_empty (name row) then iter_nvidia_gpu_rows specs'
        else if _is_console_gpu_name (name row) then iter_nvidia_gpu_rows specs'
        else
          rows <- iter_nvidia_gpu_rows specs' ;;
          Ok (row :: rows)
  end.
End Filter.

Section Sorter.
Variable lower : str -> str.

Definition row_key (r : NvidiaGpuRow) : str * str * str :=
  (name r, memory_capacity r, memory_type r).

Definition sort_key (r : NvidiaGpuRow) : str * str * str :=
  (lower (name r), memory_capacity r, memory_type r).

Definition build_unique_sorted_rows (rows : list NvidiaGpuRow) : list NvidiaGpuRow :=
  let unique :=
    fold_left (fun unique r => PyDict.setdefault tuple3_eqb unique (row_key r) r)
              rows [] in
  sorted sort_key tuple3_ltb (PyDict.values unique).
End Sorter.

(** The file system afterwards and the number of lines written. *)
Definition write_rows (out_path : path) (rows : list NvidiaGpuRow) (fs : filesystem)
  : filesystem * nat :=
  let fs1 := mkdir_parents (parent out_path) fs in
  let lines := List.map to_line rows in
  let fs2 :=
    write_text out_path
      (join [newline] lines ++ (if is_empty_list lines then [] else [newline])) fs1 in
  (fs2, List.length lines).

End nvgpu.

(* ================================================================= *)
(** ** intcpu.py *)

Module intcpu.

Definition semicolon : N := 59.
Definition pipe : N := 124.
Definition plus : N := 43.
(** The en dash, U+2013. *)
Definition en_dash : N := 8211.

Definition UNIT_TO_GHZ : list (str * float) :=
  [ (lit "http://www.wikidata.org/entity/Q3276763", float_of_int 1);
    (lit "http://www.wikidata.org/entity/Q732707",
      fdiv (float_of_int 1) (float_of_int 1000));
    (lit "http://www.wikidata.org/entity/Q2143992",
      fdiv (float_of_int 1) (float_of_int 1000000));
    (lit "http://www.wikidata.org/entity/Q39369",
      fdiv (float_of_int 1) (float_of_int 1000000000)) ].

Definition trim_float (x : float) : str :=
  let s := PyFloat.format_3f x in
  let s := rstrip_chars (lit ".") (rstrip_chars (lit "0") s) in
  s.

(** [set(l)] for floats, as the list of its elements: an element equal
    ([==]) to one already present is not added. The order in which
    Python iterates the set is not this one; when no element is NaN the
    elements are pairwise different and the [sorted] that follows gives
    the same list from any order. A NaN is equal to nothing, itself
    included; with one among the elements the list [sorted] returns
    depends on the order of iteration, which differs from run to run,
    and is not the one computed from this list. What is proved of the
    sorted values below is proved of values none of which is NaN. *)
Definition set_add (s : list float) (x : float) : list float :=
  if existsb (feqb x) s then s else s ++ [x].

Definition set_of (l : list float) : list float := fold_left set_add l [].

Section Freqs.
(** [float(s)] on a string is taken as given: [None] stands for
    [ValueError]. *)
Variable float_of_str : str -> option float.

(** One turn of the loop over the parts, on the two lists
    [ghz_vals] and [unknown_parts]. *)
Definition scan_part (st : list float * list str) (part : str)
  : list float * list str :=
  let '(ghz_vals, unknown_parts) := st in
  if is_empty (strip part) then st
  else if negb (str_in [pipe] part) then (ghz_vals, unknown_parts ++ [part])
  else
    let '(amount_s, unit) := split_once pipe part in
    match float_of_str (remove_char plus amount_s) with
    | None => (ghz_vals, unknown_parts ++ [part])
    | Some amount =>
        match PyDict.get str_eqb UNIT_TO_GHZ unit with
        | None => (ghz_vals, unknown_parts ++ [part])
        | Some mul => (ghz_vals ++ [fmul amount mul], unknown_parts)
        end
    end.

Definition parse_freqs_to_str (freqs_raw : str) : str :=
  if is_empty freqs_raw then lit "?"
  else
    let '(ghz_vals, unknown_parts) :=
      fold_left scan_part (split semicolon freqs_raw) ([], []) in
    if negb (is_empty_list ghz_vals) then
      let ghz_vals := sorted (fun x => x) fltb (set_of (List.map round3 ghz_vals)) in
      if Nat.eqb (List.length ghz_vals) 1 then
        let x := nth 0 ghz_vals zero in
        trim_float x ++ lit "GHz"
      else
        trim_float (nth 0 ghz_vals zero) ++ [en_dash]
          ++ trim_float (last ghz_vals zero) ++ lit "GHz"
    else freqs_raw.
End Freqs.

(** [float(s)] on the plain decimal literals: an optional sign, digits,
    an optional point and digits, at least one digit in all. The value
    is the float nearest to the decimal. Exponents, [inf], [nan],
    underscores and surrounding white space, which [float] also reads,
    are left to the general [float_of_str]. *)
Fixpoint digits_value (acc : Z) (s : str) : option Z :=
  match s with
  | [] => Some acc
  | c :: s' =>
      if ((48 <=? c) && (c <=? 57))%N
      then digits_value (10 * acc + Z.of_N c - 48)%Z s'
      else None
  end.

Definition decimal_float_of_str (s : str) : option float :=
  let '(neg, body) :=
    match s with
    | 45%N :: s' => (true, s')
    | 43%N :: s' => (false, s')
    | _ => (false, s)
    end in
  let '(int_part, frac_part) :=
    if str_in [46%N] body then split_once 46%N body else (body, []) in
  if is_empty int_part && is_empty frac_part then None
  else
    match digits_value 0 (int_part ++ frac_part) with
    | None => None
    | Some (Z.pos n) =>
        Some (fdiv (S754_finite neg n 0)
                (S754_finite false (Z.to_pos (10 ^ Z.of_nat (List.length frac_part))) 0))
    | Some _ => Some (S754_zero neg)
    end.

(** [range(start, stop, step)] for a positive step, as a list; [fuel]
    bounds the number of elements. *)
Fixpoint range_from (fuel start stop step : nat) : list nat :=
  match fuel with
  | O => []
  | S fuel' =>
      if Nat.ltb start stop
      then start :: range_from fuel' (start + step) stop step
      else []
  end.

(** [chunked(xs, n)]: [range] raises [ValueError] on a zero step and is
    empty on a negative one. *)
Definition chunked (A : Type) (xs : list A) (n : Z) : result (list (list A)) :=
  if (n =? 0)%Z then Raise ValueError
  else if (n <? 0)%Z then Ok []
  else
    Ok (List.map (fun i => firstn (Z.to_nat n) (skipn i xs))
          (range_from (List.length xs) 0 (List.length xs) (Z.to_nat n))).

(** The loop of [read_cpu_list] over the lines of the text. *)
Definition read_cpu_list_text (text : str) : list str :=
  fold_left
    (fun names line =>
       let s := strip line in
       if negb (is_empty s) && negb (startswith s (lit "#"))
       then names ++ [s]
       else names)
    (splitlines text) [].

(** [read_cpu_list(path)]: [None] stands for the exception that
    [read_text] raises when there is no such file. *)
Definition read_cpu_list (path : PyPath.path) (fs : filesystem) : option (list str) :=
  match read_text path fs with
  | None => None
  | Some text => Some (read_cpu_list_text text)
  end.

(** What [wdqs_fetch_specs] records for an item: its label, cores,
    threads and the raw frequency string. *)
Record cpu_spec : Type := {
  label : str;
  cores : option Z;
  threads : option Z;
  freqs_raw : str
}.

(** [build_lines] and its three loops. The two look-ups go to the
    network and are taken as given: each is a function of its argument
    and of the state of the world, returns a value or fails with an
    error of the network, and leaves a new state. [sleep] is
    [time.sleep(0.2)]. *)
Section BuildLines.
Variable world : Type.
Variable net_error : Type.
Variable wikipedia_qid :
  str -> world -> (option (str * str) + net_error) * world.
Variable wdqs_fetch_specs :
  list str -> world -> (PyDict.dict str cpu_spec + net_error) * world.
Variable sleep : world -> world.
Variable float_of_str : str -> option float.

(** The first loop: the dictionary [name_to_qid]. *)
Fixpoint collect_qids (cpu_names : list str)
  (name_to_qid : PyDict.dict str (option str)) (w : world)
  : (PyDict.dict str (option str) + net_error) * world :=
  match cpu_names with
  | [] => (inl name_to_qid, w)
  | name :: cpu_names' =>
      match wikipedia_qid name w with
      | (inr e, w') => (inr e, w')
      | (inl None, w') =>
          collect_qids cpu_names' (PyDictOps.setitem str_eqb name_to_qid name None) w'
      | (inl (Some (qid, _lang)), w') =>
          collect_qids cpu_names'
            (PyDictOps.setitem str_eqb name_to_qid name (Some qid)) w'
      end
  end.

(** The second loop: one query for each batch, then a pause. *)
Fixpoint fetch_batches (batches : list (list str))
  (specs : PyDict.dict str cpu_spec) (w : world)
  : (PyDict.dict str cpu_spec + net_error) * world :=
  match batches with
  | [] => (inl specs, w)
  | batch :: batches' =>
      match wdqs_fetch_specs batch w with
      | (inr e, w') => (inr e, w')
      | (inl found, w') =>
          fetch_batches batches' (PyDictOps.update str_eqb specs found) (sleep w')
      end
  end.

(** [q for q in name_to_qid.values() if q] *)
Definition found_qids (name_to_qid : PyDict.dict str (option str)) : list str :=
  flat_map (fun q => match q with
                     | Some (c :: q') => [c :: q']
                     | _ => []
                     end)
           (PyDict.values name_to_qid).

(** [sorted(set(qids))] *)
Definition sorted_set (qids : list str) : list str :=
  sorted (fun q => q)
    (fun a b => match str_compare a b with Lt => true | _ => false end)
    (fold_left (fun s q => if existsb (str_eqb q) s then s else s ++ [q]) qids []).

Definition quoted (s : str) : str := [dquote] ++ s ++ [dquote].

(** One turn of the third loop: the line of a name. *)
Definition cpu_line (name_to_qid : PyDict.dict str (option str))
  (specs : PyDict.dict str cpu_spec) (name : str) : str :=
  match PyDict.get str_eqb name_to_qid name with
  | Some (Some (c :: q')) =>
      let s := PyDict.get str_eqb specs (c :: q') in
      let cores := match s with Some r => cores r | None => None end in
      let threads := match s with Some r => threads r | None => None end in
      let freqs_raw := match s with Some r => freqs_raw r | None => [] end in
      let ct :=
        (match cores with Some n => str_of_int n | None => lit "?" end)
          ++ lit "C"
          ++ (match threads with Some n => str_of_int n | None => lit "?" end)
          ++ lit "T" in
      let freq_str := parse_freqs_to_str float_of_str freqs_raw in
      quoted name ++ lit " " ++ quoted ct ++ lit " " ++ quoted freq_str
  | _ => quoted name ++ lit " " ++ quoted (lit "?C?T") ++ lit " " ++ quoted (lit "?")
  end.

Definition build_lines (cpu_names : list str) (w : world)
  : (list str + (exn + net_error)) * world :=
  match collect_qids cpu_names [] w with
  | (inr e, w1) => (inr (inr e), w1)
  | (inl name_to_qid, w1) =>
      let qids := found_qids name_to_qid in
      let qids_unique := sorted_set qids in
      match chunked qids_unique 200 with
      | Raise e => (inr (inl e), w1)
      | Ok batches =>
          match fetch_batches batches [] w1 with
          | (inr e, w2) => (inr (inr e), w2)
          | (inl specs, w2) =>
              (inl (List.map (cpu_line name_to_qid specs) cpu_names), w2)
          end
      end
  end.
End BuildLines.

End intcpu.

(* ================================================================= *)
(** ** Specification vocabulary *)

(** [m] occurs in [s] as a contiguous run of code points. *)
Definition occurs_in (m s : str) : Prop :=
  exists pre suf, s = pre ++ m ++ suf.

(** [m] occurs in [name] when letter case is ignored: the case-folded
    name holds the case-folded marker. *)
Definition occurs_in_ignoring_case (casefold_char : N -> str) (m name : str) : Prop :=
  occurs_in (casefold casefold_char m) (casefold casefold_char name).

(** [s] is the word [w] up to the case of its ASCII letters. *)
Definition same_word_any_case (s w : str) : Prop :=
  List.map ascii_lower s = List.map ascii_lower w.

(** The elements of a list in the order of their first occurrence. *)
Section FirstOccurrences.
Variable A : Type.
Variable eqb : A -> A -> bool.

Fixpoint first_occurrences_from (seen l : list A) : list A :=
  match l with
  | [] => []
  | x :: l' =>
      if existsb (eqb x) seen then first_occurrences_from seen l'
      else x :: first_occurrences_from (seen ++ [x]) l'
  end.

Definition first_occurrences (l : list A) : list A :=
  first_occurrences_from [] l.
End FirstOccurrences.

(** [x] may stand before [y] in a list sorted by [key]: the key of [y]
    is not below the key of [x]. *)
Definition key_order (A K : Type) (key : A -> K) (ltb : K -> K -> bool)
  (x y : A) : Prop :=
  ltb (key y) (key x) = false.

(** Two rows with the same dictionary key. *)
Definition same_row (A : Type) (row_key : A -> str * str * str) (a b : A) : bool :=
  tuple3_eqb (row_key a) (row_key b).

(** A dictionary of rows in which every row sits under its own key. *)
Definition keyed (A : Type) (row_key : A -> str * str * str)
  (d : PyDict.dict (str * str * str) A) : Prop :=
  Forall (fun e => fst e = row_key (snd e)) d.

(** The text a writer leaves in the file: nothing for no line, and
    otherwise every line followed by one line feed, so that the text
    ends with the closing quotation mark of the last line and one line
    feed. *)
Definition written_as_lines (lines : list str) (text : str) : Prop :=
  text = flat_map (fun l => l ++ [newline]) lines
  /\ (lines = [] -> text = [])
  /\ (lines <> [] -> exists body, text = body ++ [dquote; newline]).

(** The elements of a list that a partial function maps to a value,
    mapped, in order. *)
Fixpoint filter_map (A B : Type) (f : A -> option B) (l : list A) : list B :=
  match l with
  | [] => []
  | x :: l' =>
      match f x with
      | Some y => y :: filter_map f l'
      | None => filter_map f l'
      end
  end.

(** The multipliers of the specification: what one gigahertz, one
    megahertz, one kilohertz and one hertz are in gigahertz, as the
    binary64 values nearest to 1, 10^-3, 10^-6 and 10^-9. *)
Definition one_gigahertz : float := S754_finite false 4503599627370496 (-52).
Definition one_megahertz : float := S754_finite false 4611686018427388 (-62).
Definition one_kilohertz : float := S754_finite false 4722366482869645 (-72).
Definition one_hertz : float := S754_finite false 4835703278458517 (-82).

(** [f] is a positive binary64 value nearest to [10^-k]: its distance
    from [10^-k] is at most half a unit of its last place. *)
Definition nearest_to_power_of_ten (f : float) (k : Z) : Prop :=
  match f with
  | S754_finite false m e =>
      valid_binary prec emax f = true
      /\ (e < 0)%Z
      /\ (2 * Z.abs (Z.pos m * 10 ^ k - 2 ^ (- e)) <= 10 ^ k)%Z
  | _ => False
  end.



(** The gigahertz value of an entry that parses. *)
Definition parsed_value (float_of_str : str -> option float) (part : str)
  : option float :=
  if str_in [intcpu.pipe] part then
    let '(amount_s, unit) := split_once intcpu.pipe part in
    match float_of_str (remove_char intcpu.plus amount_s),
          PyDict.get str_eqb intcpu.UNIT_TO_GHZ unit with
    | Some amount, Some mul => Some (fmul amount mul)
    | _, _ => None
    end
  else None.


(** The gigahertz values of the entries that parse, in input order. *)
Definition parsed_values (float_of_str : str -> option float) (freqs_raw : str)
  : list float :=
  filter_map (parsed_value float_of_str) (split intcpu.semicolon freqs_raw).

(** The values the formatter shows: rounded to three decimals, without
    repetition, ascending. *)
Definition shown_values (float_of_str : str -> option float) (freqs_raw : str)
  : list float :=
  sorted (fun x => x) fltb
    (intcpu.set_of (List.map round3 (parsed_values float_of_str freqs_raw))).

(** The place of a float that is not NaN in the order of [<]: the
    infinities at the ends, the finite values by sign, exponent and
    mantissa. *)
Definition rank (x : float) : Z * Z * Z :=
  match x with
  | S754_infinity true => (-2, 0, 0)
  | S754_finite true m e => (-1, - e, Z.neg m)
  | S754_zero _ => (0, 0, 0)
  | S754_nan => (0, 0, 0)
  | S754_finite false m e => (1, e, Z.pos m)
  | S754_infinity false => (2, 0, 0)
  end%Z.

Definition rank_lt (a b : Z * Z * Z) : Prop :=
  let '(a1, a2, a3) := a in
  let '(b1, b2, b3) := b in
  (a1 < b1 \/ (a1 = b1 /\ (a2 < b2 \/ (a2 = b2 /\ a3 < b3))))%Z.

Definition not_nan (x : float) : Prop := is_nan x = false.

(** The name [read_cpu_list] takes from a line, if it takes one: the
    stripped line, unless that is empty or starts with the number sign. *)
Definition cpu_name_of_line (line : str) : option str :=
  let s := strip line in
  if negb (is_empty s) && negb (startswith s (lit "#")) then Some s else None.

(** A name that [read_cpu_list] would return as it is: not empty, no
    white space at either end, no number sign in front, no line
    boundary inside. *)
Definition plain_cpu_name (name : str) : Prop :=
  name <> [] /\ strip name = name /\ startswith name (lit "#") = false
  /\ forallb (fun c => negb (is_linebreak c)) name = true.

(** The records an exporter wants, by manufacturer. *)
Definition am_atgpu_wanted (spec : dbgpu.GPUSpecification) : bool :=
  existsb (str_eqb (dbgpu.manufacturer spec)) [lit "AMD"; lit "ATI"].

Definition nvgpu_wanted (spec : dbgpu.GPUSpecification) : bool :=
  str_eqb (dbgpu.manufacturer spec) (lit "NVIDIA").

(** An ASCII decimal digit. *)
Definition is_digit (c : N) : bool := ((48 <=? c) && (c <=? 57))%N.

(** The decimals a formatter keeps: the three digits without the
    zeros at the end, after a point, or nothing when no digit is left. *)
Definition kept_decimals (digits : str) : str :=
  match rstrip_chars (lit "0") digits with
  | [] => []
  | ds => 46%N :: ds
  end.

(** The body shared by the two [build_unique_sorted_rows]: the
    dictionary of first occurrences, then the stable sort. *)
Definition build_rows (A : Type) (row_key sort_key : A -> str * str * str)
  (rows : list A) : list A :=
  sorted sort_key tuple3_ltb
    (PyDict.values
       (fold_left (fun unique r => PyDict.setdefault tuple3_eqb unique (row_key r) r)
                  rows [])).

(** The exact value of a finite number, as a fraction [(p, q)] with
    [0 < q]. *)
Definition exact_value (x : number) : Z * Z :=
  match x with
  | Int z => (z, 1)
  | Float (S754_finite s m e) =>
      let v := if s then Z.neg m else Z.pos m in
      if 0 <=? e then (v * 2 ^ e, 1) else (v, 2 ^ (- e))
  | Float _ => (0, 1)
  end%Z.

Definition number_is_finite (x : number) : bool :=
  match x with
  | Int _ => true
  | Float f => is_finite f
  end.

(** [n] is an integer nearest to the value of [x] times [10^k]. *)
Definition nearest_scaled (x : number) (k n : Z) : Prop :=
  let '(p, q) := exact_value x in
  (Z.abs (2 * (10 ^ k * p - n * q)) <= q)%Z.

(** The formatters' test [abs(x - n) < 1e-9] as the code makes it, in
    float arithmetic. *)
Definition near_integer (x : number) (n : Z) : bool :=
  PyNum.lt_float (PyNum.abs (PyNum.sub_int x n)) (decimal 1 9).

(** The value of [x] is less than [10^-9] away from the integer [k]:
    with [x = p / q], the distance [|p - k * q| / q] times [10^9] is
    below one. *)
Definition within_1e9 (x : number) (k : Z) : Prop :=
  let '(p, q) := exact_value x in
  (Z.abs (p - k * q) * 10 ^ 9 < q)%Z.

(** A number in the format of its type: any [int], and a float whose
    mantissa and exponent are those of a binary64 value ([spec_float]
    also holds pairs that no binary64 value has). *)
Definition number_in_format (x : number) : bool :=
  match x with
  | Int _ => true
  | Float f => valid_binary prec emax f
  end.

(** The mantissa [m] moved up by [k] binary places. *)
Definition shifted (m : positive) (k : Z) : positive :=
  match k with
  | Z.pos p => Pos.iter xO m p
  | _ => m
  end.

(** The text of [n / 1000] with three decimals, for [0 <= n]. *)
Definition thousandths (n : Z) : str :=
  str_of_int (n / 1000) ++ lit "." ++ digits3 (n mod 1000).

(** What the capacity formatter [fmt] does on the number [x]: "0GB" for
    a value that is not positive; for a positive value that is less
    than [10^-9] away from an integer, that integer and "GB"; for a
    positive value with no integer that near, the value rounded to
    three decimals, the trailing zeros and then a trailing point
    removed, and "GB". *)
Definition formats_capacity (fmt : option number -> result str) (x : number) : Prop :=
  let '(p, q) := exact_value x in
  ((p <= 0)%Z -> fmt (Some x) = Ok (lit "0GB"))
  /\ ((0 < p)%Z ->
      (forall k, within_1e9 x k -> fmt (Some x) = Ok (str_of_int k ++ lit "GB"))
      /\ ((forall k, ~ within_1e9 x k) ->
          exists t,
            (0 <= t)%Z
            /\ nearest_scaled x 3 t
            /\ fmt (Some x)
               = Ok (rstrip_chars (lit ".") (rstrip_chars (lit "0") (thousandths t))
                       ++ lit "GB"))).

(** [a < b] and [a <= b] on strings. *)
Definition str_lt (a b : str) : Prop := str_compare a b = Lt.
Definition str_le (a b : str) : Prop := str_compare a b <> Gt.

(** The order of the sorter on sort keys: by the first string, then by
    the second, then by the third. *)
Definition key_le (a b : str * str * str) : Prop :=
  let '(a1, a2, a3) := a in
  let '(b1, b2, b3) := b in
  str_lt a1 b1
  \/ (a1 = b1 /\ (str_lt a2 b2 \/ (a2 = b2 /\ str_le a3 b3))).

(* ================================================================= *)
(** ** Strings: equality, order, search *)

Lemma str_eqb_eq (a b : str) : str_eqb a b = true <-> a = b.
Proof.
  revert b; induction a as [|x a IH]; intros [|y b]; simpl; split;
    try congruence; try reflexivity.
  - intros H. apply andb_true_iff in H as [H1 H2].
    apply N.eqb_eq in H1. apply IH in H2. congruence.
  - intros H. injection H as -> ->.
    rewrite N.eqb_refl. simpl. now apply IH.
Qed.


Lemma str_compare_eq (a b : str) : str_compare a b = Eq <-> a = b.
Proof.
  revert b; induction a as [|x a IH]; intros [|y b]; simpl; split;
    try congruence; try reflexivity.
  - destruct (N.compare_spec x y) as [-> | |]; try discriminate.
    intros H. apply IH in H. now subst.
  - intros H. injection H as -> ->.
    rewrite N.compare_refl. now apply IH.
Qed.

Lemma str_compare_antisym (a b : str) :
  str_compare b a = CompOpp (str_compare a b).
Proof.
  revert b; induction a as [|x a IH]; intros [|y b]; simpl; try reflexivity.
  rewrite (N.compare_antisym x y).
  destruct (N.compare x y); simpl; auto.
Qed.

Lemma str_compare_trans (c : comparison) (a b d : str) :
  str_compare a b = c -> str_compare b d = c -> str_compare a d = c.
Proof.
  revert b d; induction a as [|x a IH]; intros [|y b] [|z d]; simpl;
    try congruence.
  destruct (N.compare_spec x y), (N.compare_spec y z), (N.compare_spec x z);
    intros; try lia; try congruence.
  eapply IH; eauto.
Qed.

Lemma startswith_spec (s m : str) :
  startswith s m = true <-> exists suf, s = m ++ suf.
Proof.
  revert s; induction m as [|x m IH]; intros s.
  - split; [intros _; now exists s | intros _; now destruct s].
  - destruct s as [|y s]; simpl.
    + split; [discriminate | intros [suf H]; discriminate].
    + rewrite andb_true_iff, N.eqb_eq, IH. split.
      * intros [-> [suf ->]]. now exists suf.
      * intros [suf H]. injection H as -> ->. eauto.
Qed.

Lemma str_in_spec (m n : str) : str_in m n = true <-> occurs_in m n.
Proof.
  unfold occurs_in. induction n as [|c n IH]; cbn [str_in].
  - rewrite orb_false_r, startswith_spec. split.
    + intros [suf H]. now exists [], suf.
    + intros [pre [suf H]]. destruct pre; [now exists suf|discriminate].
  - rewrite orb_true_iff, startswith_spec, IH. split.
    + intros [[suf H] | [pre [suf H]]].
      * now exists [], suf.
      * exists (c :: pre), suf. simpl. now rewrite H.
    + intros [[|x pre] [suf H]].
      * left. now exists suf.
      * right. injection H as -> ->. now exists pre, suf.
Qed.

Lemma casefold_app (cf : N -> str) (a b : str) :
  casefold cf (a ++ b) = casefold cf a ++ casefold cf b.
Proof. apply flat_map_app. Qed.

Lemma ascii_lower_below (c : N) :
  (ascii_lower c < 128)%N -> (c < 128)%N.
Proof.
  unfold ascii_lower.
  destruct ((65 <=? c)%N && (c <=? 90)%N) eqn:E; [|auto].
  apply andb_true_iff in E as [_ E]. apply N.leb_le in E. lia.
Qed.

(** On a string of ASCII code points case folding is the ASCII
    lowering, given a folding table that is right on ASCII. *)
Lemma casefold_ascii (cf : N -> str)
  (Hcf : forall c, (c < 128)%N -> cf c = [ascii_lower c]) (s : str) :
  Forall (fun c => (c < 128)%N) s ->
  casefold cf s = List.map ascii_lower s.
Proof.
  induction 1 as [|c s Hc _ IH]; simpl; [reflexivity|].
  now rewrite (Hcf c Hc), IH.
Qed.

Lemma same_word_ascii (s w : str) :
  same_word_any_case s w ->
  Forall (fun c => (c < 128)%N) w ->
  Forall (fun c => (c < 128)%N) s.
Proof.
  unfold same_word_any_case. revert w.
  induction s as [|c s IH]; intros [|d w] H Hw; try discriminate;
    constructor; simpl in H; injection H as H1 H2; inversion Hw; subst.
  - apply ascii_lower_below. rewrite H1.
    unfold ascii_lower. destruct ((65 <=? d)%N && (d <=? 90)%N) eqn:E; [|auto].
    apply andb_true_iff in E as [_ E]. apply N.leb_le in E. lia.
  - eapply IH; eauto.
Qed.

(* ================================================================= *)
(** ** The capacity formatter on a missing size *)

(** C6 (as amended): on a missing memory size both capacity formatters
    return the placeholder made of the two code points U+4E0D U+660E
    (the Japanese word for unknown), not the ASCII word. *)
Theorem format_memory_capacity_none :
  am_atgpu._format_memory_capacity None = Ok [19981%N; 26126%N]
  /\ nvgpu._format_memory_capacity None = Ok [19981%N; 26126%N].
Proof. split; reflexivity. Qed.

(** C6 as stated fails: the result on [None] is not the string
    "unknown". *)
Lemma format_memory_capacity_none_not_unknown :
  am_atgpu._format_memory_capacity None <> Ok (lit "unknown")
  /\ nvgpu._format_memory_capacity None <> Ok (lit "unknown").
Proof. split; discriminate. Qed.

Lemma format_memory_capacity_agree (x : option number) :
  nvgpu._format_memory_capacity x = am_atgpu._format_memory_capacity x.
Proof.
  destruct x as [x|]; [|reflexivity].
  unfold am_atgpu._format_memory_capacity, nvgpu._format_memory_capacity.
  destruct (PyNum.le_zero x); [reflexivity|].
  destruct (PyNum.round x) as [rounded|e]; simpl; [|reflexivity].
  destruct (PyNum.lt_float _ _); reflexivity.
Qed.

(** C10: the two exporters' capacity formatters agree on every optional
    number, whether they return a string or raise. *)
Theorem format_memory_capacity_same (x : option number) :
  am_atgpu._format_memory_capacity x = nvgpu._format_memory_capacity x.
Proof. symmetry. apply format_memory_capacity_agree. Qed.

(* ================================================================= *)
(** ** The writer *)

Lemma join_lines_text (lines : list str) :
  join [newline] lines ++ (if is_empty_list lines then [] else [newline])
  = flat_map (fun l => l ++ [newline]) lines.
Proof.
  induction lines as [|l lines IH]; [reflexivity|].
  destruct lines as [|l' lines].
  - simpl. now rewrite app_nil_r.
  - change (join [newline] (l :: l' :: lines))
      with (l ++ [newline] ++ join [newline] (l' :: lines)).
    cbn [is_empty_list flat_map] in *.
    rewrite <- IH, <- !app_assoc. reflexivity.
Qed.

Lemma lines_text_end (lines : list str) :
  lines <> [] ->
  Forall (fun l => exists b, l = b ++ [dquote]) lines ->
  exists body, flat_map (fun l => l ++ [newline]) lines = body ++ [dquote; newline].
Proof.
  induction lines as [|l lines IH]; [congruence|]. intros _ H.
  inversion H as [|? ? [b ->] Hrest]; subst.
  destruct lines as [|l' lines].
  - exists b. simpl. now rewrite app_nil_r, <- app_assoc.
  - destruct IH as [body Hbody]; [discriminate|assumption|].
    exists ((b ++ [dquote]) ++ [newline] ++ body).
    cbn [flat_map] in *. rewrite Hbody, <- !app_assoc. reflexivity.
Qed.

Lemma read_after_write (p : path) (text : str) (fs : filesystem) :
  read_text p (write_text p text fs) = Some text.
Proof.
  unfold read_text, write_text, path_eqb. simpl.
  destruct (list_eq_dec (list_eq_dec N.eq_dec) p p); congruence.
Qed.

Lemma am_atgpu_to_line_end (r : am_atgpu.AmdAtiGpuRow) :
  exists b, am_atgpu.to_line r = b ++ [dquote].
Proof.
  unfold am_atgpu.to_line. eexists. rewrite !app_assoc. reflexivity.
Qed.

Lemma nvgpu_to_line_end (r : nvgpu.NvidiaGpuRow) :
  exists b, nvgpu.to_line r = b ++ [dquote].
Proof.
  unfold nvgpu.to_line. eexists. rewrite !app_assoc. reflexivity.
Qed.

Lemma written_as_lines_intro (lines : list str) :
  Forall (fun l => exists b, l = b ++ [dquote]) lines ->
  written_as_lines lines
    (join [newline] lines ++ (if is_empty_list lines then [] else [newline])).
Proof.
  intros H. rewrite join_lines_text. repeat split.
  - now intros ->.
  - intros Hne. now apply lines_text_end.
Qed.

(** C9: in both GPU exporters [write_rows] leaves in the file the empty
    text for an empty row sequence and, for a non-empty one, the rows'
    lines each followed by one line feed, the text ending with exactly
    one line feed (the code point before it is the closing quotation
    mark of the last line); it returns the number of rows. *)
Theorem write_rows_text (out_path : path) (fs : filesystem) :
  (forall rows : list am_atgpu.AmdAtiGpuRow,
      exists text,
        read_text out_path (fst (am_atgpu.write_rows out_path rows fs)) = Some text
        /\ snd (am_atgpu.write_rows out_path rows fs) = List.length rows
        /\ written_as_lines (List.map am_atgpu.to_line rows) text)
  /\ (forall rows : list nvgpu.NvidiaGpuRow,
      exists text,
        read_text out_path (fst (nvgpu.write_rows out_path rows fs)) = Some text
        /\ snd (nvgpu.write_rows out_path rows fs) = List.length rows
        /\ written_as_lines (List.map nvgpu.to_line rows) text).
Proof.
  split; intros rows; eexists; cbn [am_atgpu.write_rows nvgpu.write_rows fst snd];
    (split; [apply read_after_write|]);
    (split; [apply length_map|]);
    apply written_as_lines_intro, Forall_forall; intros l Hl;
    apply in_map_iff in Hl as [r [<- _]].
  - apply am_atgpu_to_line_end.
  - apply nvgpu_to_line_end.
Qed.

(* ================================================================= *)
(** ** The console filter *)

Ltac all_ascii :=
  repeat first [apply Forall_nil | apply Forall_cons; [reflexivity|]].

Section ConsoleFilter.
Variable casefold_char : N -> str.
Hypothesis casefold_on_ascii :
  forall c, (c < 128)%N -> casefold_char c = [ascii_lower c].

Lemma am_atgpu_markers_folded (m : str) :
  In m am_atgpu.console_markers -> casefold casefold_char m = m.
Proof.
  intros Hm. simpl in Hm.
  repeat (destruct Hm as [<- | Hm];
          [rewrite casefold_ascii by (auto; all_ascii); reflexivity|]).
  contradiction.
Qed.

Lemma nvgpu_markers_folded (m : str) :
  In m nvgpu.console_markers -> casefold casefold_char m = m.
Proof.
  intros Hm. simpl in Hm.
  repeat (destruct Hm as [<- | Hm];
          [rewrite casefold_ascii by (auto; all_ascii); reflexivity|]).
  contradiction.
Qed.

Lemma am_atgpu_console_iff (name : str) :
  am_atgpu._is_console_gpu_name casefold_char name = true <->
  exists m, In m am_atgpu.console_markers
            /\ occurs_in_ignoring_case casefold_char m name.
Proof.
  unfold am_atgpu._is_console_gpu_name, occurs_in_ignoring_case.
  rewrite existsb_exists. split; intros [m [Hm H]]; exists m; split; auto.
  - rewrite am_atgpu_markers_folded by assumption. now apply str_in_spec.
  - rewrite am_atgpu_markers_folded in H by assumption. now apply str_in_spec.
Qed.

Lemma nvgpu_console_iff (name : str) :
  nvgpu._is_console_gpu_name casefold_char name = true <->
  exists m, In m nvgpu.console_markers
            /\ occurs_in_ignoring_case casefold_char m name.
Proof.
  unfold nvgpu._is_console_gpu_name, occurs_in_ignoring_case.
  rewrite existsb_exists. split; intros [m [Hm H]]; exists m; split; auto.
  - rewrite nvgpu_markers_folded by assumption. now apply str_in_spec.
  - rewrite nvgpu_markers_folded in H by assumption. now apply str_in_spec.
Qed.

Lemma xbox_folded (pre s suf : str) :
  same_word_any_case s (lit "Xbox") ->
  occurs_in_ignoring_case casefold_char (lit "xbox") (pre ++ s ++ suf).
Proof.
  intros Hs. unfold occurs_in_ignoring_case.
  rewrite !casefold_app.
  rewrite (@casefold_ascii _ casefold_on_ascii s)
    by (eapply same_word_ascii; [eassumption | all_ascii]).
  rewrite (@casefold_ascii _ casefold_on_ascii (lit "xbox")) by all_ascii.
  rewrite Hs. now exists (casefold casefold_char pre), (casefold casefold_char suf).
Qed.

Lemma am_atgpu_iter_retained (specs : list dbgpu.GPUSpecification) :
  forall rows,
    am_atgpu.iter_amd_ati_gpu_rows casefold_char specs = Ok rows ->
    Forall (fun r => (exists spec, In spec specs /\ am_atgpu._row_from_spec spec = Ok r)
                     /\ am_atgpu.name r <> []
                     /\ am_atgpu._is_console_gpu_name casefold_char (am_atgpu.name r) = false)
           rows.
Proof.
  induction specs as [|spec specs IH]; intros rows; simpl.
  - intros [= <-]. constructor.
  - assert (IH' : forall rows,
               am_atgpu.iter_amd_ati_gpu_rows casefold_char specs = Ok rows ->
               Forall (fun r => (exists spec0, (spec = spec0 \/ In spec0 specs)
                                               /\ am_atgpu._row_from_spec spec0 = Ok r)
                                /\ am_atgpu.name r <> []
                                /\ am_atgpu._is_console_gpu_name casefold_char (am_atgpu.name r) = false)
                      rows).
    { intros rows0 H0. eapply Forall_impl; [|apply (IH _ H0)].
      intros r [[spec0 [Hin Hr]] Hrest]. split; [|exact Hrest].
      exists spec0. auto. }
    clear IH. rename IH' into IH.
    destruct (negb _); [apply IH|].
    destruct (am_atgpu._row_from_spec spec) as [row|e] eqn:Hrow; simpl; [|discriminate].
    destruct (is_empty (am_atgpu.name row)) eqn:Hname; [apply IH|].
    destruct (am_atgpu._is_console_gpu_name casefold_char (am_atgpu.name row)) eqn:Hc;
      [apply IH|].
    destruct (am_atgpu.iter_amd_ati_gpu_rows casefold_char specs) as [rows'|e];
      simpl; [|discriminate].
    intros [= <-]. constructor; [|now apply IH].
    split; [exists spec; auto|].
    split; [|assumption]. intros E. now rewrite E in Hname.
Qed.

Lemma nvgpu_iter_retained (specs : list dbgpu.GPUSpecification) :
  forall rows,
    nvgpu.iter_nvidia_gpu_rows casefold_char specs = Ok rows ->
    Forall (fun r => (exists spec, In spec specs /\ nvgpu._row_from_spec spec = Ok r)
                     /\ nvgpu.name r <> []
                     /\ nvgpu._is_console_gpu_name casefold_char (nvgpu.name r) = false)
           rows.
Proof.
  induction specs as [|spec specs IH]; intros rows; simpl.
  - intros [= <-]. constructor.
  - assert (IH' : forall rows,
               nvgpu.iter_nvidia_gpu_rows casefold_char specs = Ok rows ->
               Forall (fun r => (exists spec0, (spec = spec0 \/ In spec0 specs)
                                               /\ nvgpu._row_from_spec spec0 = Ok r)
                                /\ nvgpu.name r <> []
                                /\ nvgpu._is_console_gpu_name casefold_char (nvgpu.name r) = false)
                      rows).
    { intros rows0 H0. eapply Forall_impl; [|apply (IH _ H0)].
      intros r [[spec0 [Hin Hr]] Hrest]. split; [|exact Hrest].
      exists spec0. auto. }
    clear IH. rename IH' into IH.
    destruct (negb _); [apply IH|].
    destruct (nvgpu._row_from_spec spec) as [row|e] eqn:Hrow; simpl; [|discriminate].
    destruct (is_empty (nvgpu.name row)) eqn:Hname; [apply IH|].
    destruct (nvgpu._is_console_gpu_name casefold_char (nvgpu.name row)) eqn:Hc;
      [apply IH|].
    destruct (nvgpu.iter_nvidia_gpu_rows casefold_char specs) as [rows'|e];
      simpl; [|discriminate].
    intros [= <-]. constructor; [|now apply IH].
    split; [exists spec; auto|].
    split; [|assumption]. intros E. now rewrite E in Hname.
Qed.

End ConsoleFilter.

(** C8: with a case-folding table that lowers ASCII letters, each
    exporter's filter answers true exactly for the names that hold one
    of its markers when letter case is ignored; a name that holds
    "Xbox" in any letter case is a console name for both exporters; and
    no row that an exporter's generator yields has a console name. *)
Theorem console_filter_spec (casefold_char : N -> str)
  (casefold_on_ascii : forall c, (c < 128)%N -> casefold_char c = [ascii_lower c]) :
  (forall name,
      am_atgpu._is_console_gpu_name casefold_char name = true <->
      exists m, In m am_atgpu.console_markers
                /\ occurs_in_ignoring_case casefold_char m name)
  /\ (forall name,
      nvgpu._is_console_gpu_name casefold_char name = true <->
      exists m, In m nvgpu.console_markers
                /\ occurs_in_ignoring_case casefold_char m name)
  /\ (forall pre s suf,
      same_word_any_case s (lit "Xbox") ->
      am_atgpu._is_console_gpu_name casefold_char (pre ++ s ++ suf) = true
      /\ nvgpu._is_console_gpu_name casefold_char (pre ++ s ++ suf) = true)
  /\ (forall specs rows,
      am_atgpu.iter_amd_ati_gpu_rows casefold_char specs = Ok rows ->
      Forall (fun r => am_atgpu._is_console_gpu_name casefold_char (am_atgpu.name r) = false)
             rows)
  /\ (forall specs rows,
      nvgpu.iter_nvidia_gpu_rows casefold_char specs = Ok rows ->
      Forall (fun r => nvgpu._is_console_gpu_name casefold_char (nvgpu.name r) = false)
             rows).
Proof.
  split; [|split; [|split; [|split]]].
  - apply am_atgpu_console_iff, casefold_on_ascii.
  - apply nvgpu_console_iff, casefold_on_ascii.
  - intros pre s suf Hs. split.
    + apply (am_atgpu_console_iff casefold_char casefold_on_ascii).
      exists (lit "xbox"). split; [simpl; tauto|].
      now apply xbox_folded.
    + apply (nvgpu_console_iff casefold_char casefold_on_ascii).
      exists (lit "xbox"). split; [simpl; tauto|].
      now apply xbox_folded.
  - intros specs rows H.
    eapply Forall_impl; [|eapply am_atgpu_iter_retained, H].
    now intros r [_ [_ Hr]].
  - intros specs rows H.
    eapply Forall_impl; [|eapply nvgpu_iter_retained, H].
    now intros r [_ [_ Hr]].
Qed.

(** The filter at work with the ASCII folding table: "My XBOX chip" is a
    console name for both exporters. *)
Lemma console_filter_spec_witness :
  am_atgpu._is_console_gpu_name ascii_casefold_char (lit "My XBOX chip") = true
  /\ nvgpu._is_console_gpu_name ascii_casefold_char (lit "My XBOX chip") = true.
Proof.
  apply (proj1 (proj2 (proj2
    (console_filter_spec ascii_casefold_char (fun c _ => eq_refl))))
    (lit "My ") (lit "XBOX") (lit " chip")).
  reflexivity.
Defined.

(* ================================================================= *)
(** ** Sorting *)

Section SortedFacts.
Variables A K : Type.
Variable key : A -> K.
Variable ltb : K -> K -> bool.
(** The keys that occur. *)
Variable P : K -> Prop.
Hypothesis ltb_asym :
  forall a b, P a -> P b -> ltb a b = true -> ltb b a = false.
Hypothesis geb_trans :
  forall a b c, P a -> P b -> P c ->
                ltb b a = false -> ltb c b = false -> ltb c a = false.

Lemma insert_sorted_perm (x : A) (l : list A) :
  Permutation (insert_sorted key ltb x l) (x :: l).
Proof.
  induction l as [|y l IH]; simpl; [reflexivity|].
  destruct (ltb (key y) (key x)); [|reflexivity].
  rewrite IH. apply perm_swap.
Qed.

Lemma sorted_perm (l : list A) : Permutation (sorted key ltb l) l.
Proof.
  induction l as [|x l IH]; simpl; [reflexivity|].
  rewrite insert_sorted_perm. now constructor.
Qed.

Lemma insert_sorted_ordered (x : A) (l : list A) :
  P (key x) -> Forall (fun a => P (key a)) l ->
  StronglySorted (key_order key ltb) l -> StronglySorted (key_order key ltb) (insert_sorted key ltb x l).
Proof.
  intros Hx Hl Hs. induction Hs as [|y l Hs IH Hy]; simpl.
  - repeat constructor.
  - inversion Hl as [|? ? Py Pl]; subst.
    destruct (ltb (key y) (key x)) eqn:E.
    + constructor; [now apply IH|].
      apply (Permutation_Forall (Permutation_sym (insert_sorted_perm x l))).
      constructor; [|assumption]. unfold key_order. now apply ltb_asym.
    + constructor; [now constructor|].
      constructor; [exact E|].
      rewrite Forall_forall in *. intros z Hz.
      unfold key_order in *. apply geb_trans with (b := key y); auto.
Qed.

Lemma sorted_ordered (l : list A) :
  Forall (fun a => P (key a)) l -> StronglySorted (key_order key ltb) (sorted key ltb l).
Proof.
  induction 1 as [|x l Hx Hl IH]; simpl; [constructor|].
  apply insert_sorted_ordered; auto.
  apply (Permutation_Forall (Permutation_sym (sorted_perm l))). assumption.
Qed.

End SortedFacts.

Lemma str_compare_refl (a : str) : str_compare a a = Eq.
Proof. now apply str_compare_eq. Qed.

Ltac lex_step a b d :=
  let E := fresh "E" in
  let F := fresh "F" in
  destruct (str_compare a b) eqn:E, (str_compare b d) eqn:F;
  try (apply str_compare_eq in E; subst);
  try (apply str_compare_eq in F; subst);
  rewrite ?str_compare_refl; try rewrite E; try rewrite F;
  try congruence;
  try (rewrite (str_compare_trans _ _ _ E F); congruence).

Lemma tuple3_compare_trans (c : comparison) (a b d : str * str * str) :
  tuple3_compare a b = c -> tuple3_compare b d = c -> tuple3_compare a d = c.
Proof.
  destruct a as [[a1 a2] a3], b as [[b1 b2] b3], d as [[d1 d2] d3]. simpl.
  lex_step a1 b1 d1. lex_step a2 b2 d2. lex_step a3 b3 d3.
Qed.

Lemma tuple3_compare_eq (a b : str * str * str) :
  tuple3_compare a b = Eq <-> a = b.
Proof.
  destruct a as [[a1 a2] a3], b as [[b1 b2] b3]. simpl. split.
  - destruct (str_compare a1 b1) eqn:E1; try discriminate.
    destruct (str_compare a2 b2) eqn:E2; try discriminate.
    intros E3. apply str_compare_eq in E1, E2, E3. congruence.
  - intros [= -> -> ->]. now rewrite !str_compare_refl.
Qed.

Lemma tuple3_compare_antisym (a b : str * str * str) :
  tuple3_compare b a = CompOpp (tuple3_compare a b).
Proof.
  destruct a as [[a1 a2] a3], b as [[b1 b2] b3]. simpl.
  rewrite (str_compare_antisym a1 b1), (str_compare_antisym a2 b2),
    (str_compare_antisym a3 b3).
  destruct (str_compare a1 b1), (str_compare a2 b2), (str_compare a3 b3);
    reflexivity.
Qed.

Lemma tuple3_ltb_asym (a b : str * str * str) :
  tuple3_ltb a b = true -> tuple3_ltb b a = false.
Proof.
  unfold tuple3_ltb. rewrite (tuple3_compare_antisym a b).
  destruct (tuple3_compare a b); simpl; congruence.
Qed.

Lemma tuple3_geb_trans (a b c : str * str * str) :
  tuple3_ltb b a = false -> tuple3_ltb c b = false -> tuple3_ltb c a = false.
Proof.
  unfold tuple3_ltb.
  destruct (tuple3_compare b a) eqn:E1; try discriminate;
    destruct (tuple3_compare c b) eqn:E2; try discriminate; intros _ _.
  - apply tuple3_compare_eq in E1, E2. subst.
    now rewrite (proj2 (tuple3_compare_eq a a) eq_refl).
  - apply tuple3_compare_eq in E1. subst. now rewrite E2.
  - apply tuple3_compare_eq in E2. subst. now rewrite E1.
  - now rewrite (tuple3_compare_trans _ _ _ E2 E1).
Qed.

Lemma tuple3_eqb_eq (a b : str * str * str) : tuple3_eqb a b = true <-> a = b.
Proof.
  destruct a as [[a1 a2] a3], b as [[b1 b2] b3]. simpl.
  rewrite !andb_true_iff, !str_eqb_eq. split.
  - intros [[-> ->] ->]. reflexivity.
  - intros [= -> -> ->]. auto.
Qed.

Lemma tuple3_not_lt_key_le (a b : str * str * str) :
  tuple3_ltb b a = false -> key_le a b.
Proof.
  unfold tuple3_ltb. rewrite (tuple3_compare_antisym a b).
  destruct a as [[a1 a2] a3], b as [[b1 b2] b3]. simpl.
  unfold str_lt, str_le.
  destruct (str_compare a1 b1) eqn:E1; simpl; try discriminate; auto.
  apply str_compare_eq in E1. subst. right. split; [reflexivity|].
  destruct (str_compare a2 b2) eqn:E2; simpl in *; try discriminate; auto.
  apply str_compare_eq in E2. subst. right. split; [reflexivity|].
  destruct (str_compare a3 b3); simpl in *; congruence.
Qed.

(* ================================================================= *)
(** ** The deduplicator and sorter *)

Section FirstOccurrencesFacts.
Variable A : Type.
Variable eqb : A -> A -> bool.
Hypothesis eqb_eq : forall a b, eqb a b = true <-> a = b.

Lemma existsb_eqb_In (x : A) (l : list A) :
  existsb (eqb x) l = true <-> In x l.
Proof.
  rewrite existsb_exists. split.
  - intros [y [Hy E]]. apply eqb_eq in E. now subst.
  - intros H. exists x. split; [assumption|now apply eqb_eq].
Qed.

Lemma first_occurrences_from_In (l : list A) :
  forall seen x,
    In x (first_occurrences_from eqb seen l) <-> In x l /\ ~ In x seen.
Proof.
  induction l as [|y l IH]; intros seen x; simpl; [tauto|].
  destruct (existsb (eqb y) seen) eqn:E.
  - apply existsb_eqb_In in E. rewrite IH. split.
    + tauto.
    + intros [[<- | H] Hn]; tauto.
  - assert (Hy : ~ In y seen).
    { intros H. apply existsb_eqb_In in H. congruence. }
    simpl. rewrite IH, in_app_iff. simpl. split.
    + intros [<- | [H Hn]]; tauto.
    + intros [[<- | H] Hn]; [tauto|].
      destruct (eqb y x) eqn:Eyx.
      * apply eqb_eq in Eyx. tauto.
      * right. split; [assumption|]. intros [H'|[H'|[]]]; [tauto|].
        apply eqb_eq in H'. congruence.
Qed.

Lemma first_occurrences_from_NoDup (l : list A) :
  forall seen, NoDup (first_occurrences_from eqb seen l).
Proof.
  induction l as [|y l IH]; intros seen; simpl; [constructor|].
  destruct (existsb (eqb y) seen); [apply IH|].
  constructor; [|apply IH].
  rewrite first_occurrences_from_In, in_app_iff. simpl. tauto.
Qed.

End FirstOccurrencesFacts.

Lemma StronglySorted_weaken (A : Type) (R R' : A -> A -> Prop) (l : list A) :
  (forall a b, R a b -> R' a b) -> StronglySorted R l -> StronglySorted R' l.
Proof.
  intros HR. induction 1 as [|x l Hs IH Hx]; constructor; auto.
  eapply Forall_impl; [|exact Hx]. auto.
Qed.

Section Deduplicator.
Variable A : Type.
Variable row_key : A -> str * str * str.
Variable sort_key : A -> str * str * str.
Hypothesis row_key_inj : forall a b, row_key a = row_key b -> a = b.

Lemma same_row_eq (a b : A) : same_row row_key a b = true <-> a = b.
Proof.
  unfold same_row. rewrite tuple3_eqb_eq. split; [apply row_key_inj|congruence].
Qed.

Lemma get_keyed (d : PyDict.dict (str * str * str) A) (r : A) :
  keyed row_key d ->
  PyDict.get tuple3_eqb d (row_key r) = None
  <-> existsb (same_row row_key r) (PyDict.values d) = false.
Proof.
  induction 1 as [|[k v] d Hk _ IH]; simpl in *; [tauto|]. subst k.
  unfold same_row at 1.
  destruct (tuple3_eqb (row_key v) (row_key r)) eqn:E.
  - apply tuple3_eqb_eq in E. rewrite E.
    rewrite (proj2 (tuple3_eqb_eq _ _) eq_refl). simpl. split; discriminate.
  - destruct (tuple3_eqb (row_key r) (row_key v)) eqn:E'.
    + apply tuple3_eqb_eq in E'. rewrite E' in E.
      rewrite (proj2 (tuple3_eqb_eq _ _) eq_refl) in E. discriminate.
    + simpl. exact IH.
Qed.

Lemma setdefault_values (rows : list A) :
  forall d,
    keyed row_key d ->
    PyDict.values
      (fold_left (fun unique r => PyDict.setdefault tuple3_eqb unique (row_key r) r)
                 rows d)
    = PyDict.values d ++ first_occurrences_from (same_row row_key) (PyDict.values d) rows.
Proof.
  induction rows as [|r rows IH]; intros d Hd; simpl.
  - now rewrite app_nil_r.
  - unfold PyDict.setdefault at 2.
    destruct (PyDict.get tuple3_eqb d (row_key r)) eqn:G.
    + destruct (existsb (same_row row_key r) (PyDict.values d)) eqn:E.
      * now apply IH.
      * apply (get_keyed r Hd) in E. congruence.
    + apply (get_keyed r Hd) in G. rewrite G.
      rewrite IH.
      * unfold PyDict.values. rewrite map_app, <- app_assoc. reflexivity.
      * apply Forall_app. split; [assumption|]. now repeat constructor.
Qed.

Lemma dedup_sort_spec (rows : list A) :
  let out :=
    sorted sort_key tuple3_ltb
      (PyDict.values
         (fold_left (fun unique r => PyDict.setdefault tuple3_eqb unique (row_key r) r)
                    rows [])) in
  NoDup out
  /\ (forall r, In r out <-> In r rows)
  /\ StronglySorted (fun a b => key_le (sort_key a) (sort_key b)) out
  /\ out = sorted sort_key tuple3_ltb (first_occurrences (same_row row_key) rows).
Proof.
  intros out. subst out.
  rewrite setdefault_values by constructor. simpl.
  fold (first_occurrences (same_row row_key) rows).
  pose proof (sorted_perm sort_key tuple3_ltb (first_occurrences (same_row row_key) rows)) as Hp.
  split; [|split; [|split]].
  - apply (Permutation_NoDup (Permutation_sym Hp)).
    apply first_occurrences_from_NoDup, same_row_eq.
  - intros r. split.
    + intros H. apply (Permutation_in _ Hp) in H.
      apply (first_occurrences_from_In (same_row row_key) same_row_eq) in H. tauto.
    + intros H. apply (Permutation_in _ (Permutation_sym Hp)).
      apply (first_occurrences_from_In (same_row row_key) same_row_eq). simpl. tauto.
  - eapply StronglySorted_weaken.
    2: { apply sorted_ordered with (P := fun _ => True).
         - intros a b _ _. apply tuple3_ltb_asym.
         - intros a b c _ _ _. apply tuple3_geb_trans.
         - apply Forall_forall. auto. }
    intros a b. apply tuple3_not_lt_key_le.
  - reflexivity.
Qed.

End Deduplicator.

Lemma am_atgpu_row_key_inj (a b : am_atgpu.AmdAtiGpuRow) :
  am_atgpu.row_key a = am_atgpu.row_key b -> a = b.
Proof. destruct a, b. unfold am_atgpu.row_key. simpl. now intros [= -> -> ->]. Qed.

Lemma nvgpu_row_key_inj (a b : nvgpu.NvidiaGpuRow) :
  nvgpu.row_key a = nvgpu.row_key b -> a = b.
Proof. destruct a, b. unfold nvgpu.row_key. simpl. now intros [= -> -> ->]. Qed.

(** C1: for every finite sequence of rows and every lower-casing
    function, [build_unique_sorted_rows] of either GPU exporter returns
    a list without repeated rows that holds exactly the rows of the
    input (so two rows that differ in any of the three strings both
    survive, and rows with the same triple of name, capacity and memory
    type are collapsed to the first of them), in which a row stands
    before another only if its lower-cased name is the smaller string,
    or the lower-cased names are the same and its capacity string is the
    smaller, or these are the same too and its memory type string is not
    the greater; the strings are compared as raw strings. The list is
    the stable sort, by the triple of lower-cased name, capacity and
    memory type, of the rows taken in the order of their first
    occurrence. *)
Theorem build_unique_sorted_rows_spec (lower : str -> str) :
  (forall rows : list am_atgpu.AmdAtiGpuRow,
      let out := am_atgpu.build_unique_sorted_rows lower rows in
      NoDup out
      /\ (forall r, In r out <-> In r rows)
      /\ StronglySorted
           (fun a b =>
              str_lt (lower (am_atgpu.name a)) (lower (am_atgpu.name b))
              \/ (lower (am_atgpu.name a) = lower (am_atgpu.name b)
                  /\ (str_lt (am_atgpu.memory_capacity a) (am_atgpu.memory_capacity b)
                      \/ (am_atgpu.memory_capacity a = am_atgpu.memory_capacity b
                          /\ str_le (am_atgpu.memory_type a) (am_atgpu.memory_type b)))))
           out
      /\ out = sorted
                 (fun r => (lower (am_atgpu.name r), am_atgpu.memory_capacity r,
                            am_atgpu.memory_type r))
                 tuple3_ltb
                 (first_occurrences
                    (fun a b =>
                       tuple3_eqb
                         (am_atgpu.name a, am_atgpu.memory_capacity a, am_atgpu.memory_type a)
                         (am_atgpu.name b, am_atgpu.memory_capacity b, am_atgpu.memory_type b))
                    rows))
  /\ (forall rows : list nvgpu.NvidiaGpuRow,
      let out := nvgpu.build_unique_sorted_rows lower rows in
      NoDup out
      /\ (forall r, In r out <-> In r rows)
      /\ StronglySorted
           (fun a b =>
              str_lt (lower (nvgpu.name a)) (lower (nvgpu.name b))
              \/ (lower (nvgpu.name a) = lower (nvgpu.name b)
                  /\ (str_lt (nvgpu.memory_capacity a) (nvgpu.memory_capacity b)
                      \/ (nvgpu.memory_capacity a = nvgpu.memory_capacity b
                          /\ str_le (nvgpu.memory_type a) (nvgpu.memory_type b)))))
           out
      /\ out = sorted
                 (fun r => (lower (nvgpu.name r), nvgpu.memory_capacity r,
                            nvgpu.memory_type r))
                 tuple3_ltb
                 (first_occurrences
                    (fun a b =>
                       tuple3_eqb
                         (nvgpu.name a, nvgpu.memory_capacity a, nvgpu.memory_type a)
                         (nvgpu.name b, nvgpu.memory_capacity b, nvgpu.memory_type b))
                    rows)).
Proof.
  split; intros rows.
  - exact (@dedup_sort_spec _ am_atgpu.row_key (am_atgpu.sort_key lower)
             am_atgpu_row_key_inj rows).
  - exact (@dedup_sort_spec _ nvgpu.row_key (nvgpu.sort_key lower)
             nvgpu_row_key_inj rows).
Qed.

(** Duplicates collapse, differently written attributes survive, names
    sort without regard to case, and "10GB" sorts before "2GB". *)
Example build_unique_sorted_rows_example :
  nvgpu.build_unique_sorted_rows ascii_lower_str
    [ nvgpu.Build_NvidiaGpuRow (lit "b") (lit "2GB") (lit "X");
      nvgpu.Build_NvidiaGpuRow (lit "A") (lit "2GB") (lit "X");
      nvgpu.Build_NvidiaGpuRow (lit "b") (lit "2GB") (lit "X");
      nvgpu.Build_NvidiaGpuRow (lit "a") (lit "10GB") (lit "X");
      nvgpu.Build_NvidiaGpuRow (lit "A") (lit "2.0GB") (lit "X") ]
  = [ nvgpu.Build_NvidiaGpuRow (lit "a") (lit "10GB") (lit "X");
      nvgpu.Build_NvidiaGpuRow (lit "A") (lit "2.0GB") (lit "X");
      nvgpu.Build_NvidiaGpuRow (lit "A") (lit "2GB") (lit "X");
      nvgpu.Build_NvidiaGpuRow (lit "b") (lit "2GB") (lit "X") ].
Proof. reflexivity. Qed.

(* ================================================================= *)
(** ** The capacity formatter on numbers *)

Local Open Scope Z_scope.

Lemma round_half_even_div_nearest (a b : Z) :
  0 < b -> Z.abs (2 * (a - round_half_even_div a b * b)) <= b.
Proof.
  intros Hb. unfold round_half_even_div.
  pose proof (Z.div_mod a b ltac:(lia)) as Hdiv.
  pose proof (Z.mod_pos_bound a b Hb) as Hmod.
  destruct (Z.compare_spec (2 * (a mod b)) b); [destruct (Z.even (a / b))|..]; lia.
Qed.

Lemma round_half_even_div_nonneg (a b : Z) :
  0 <= a -> 0 < b -> 0 <= round_half_even_div a b.
Proof.
  intros Ha Hb. unfold round_half_even_div.
  pose proof (Z.div_pos a b Ha Hb).
  destruct (2 * (a mod b) ?= b); [destruct (Z.even (a / b))|..]; lia.
Qed.

Lemma scaled_round_nonneg (m : positive) (e k : Z) :
  0 <= k -> 0 <= scaled_round m e k.
Proof.
  intros Hk. unfold scaled_round. destruct (0 <=? e) eqn:E.
  - apply Z.leb_le in E.
    pose proof (Z.pow_pos_nonneg 2 e eq_refl E).
    pose proof (Z.pow_pos_nonneg 10 k eq_refl Hk). nia.
  - apply Z.leb_gt in E. apply round_half_even_div_nonneg.
    + pose proof (Z.pow_pos_nonneg 10 k eq_refl Hk). nia.
    + apply Z.pow_pos_nonneg; lia.
Qed.

Lemma scaled_round_nearest (m : positive) (e k : Z) :
  nearest_scaled (Float (S754_finite false m e)) k (scaled_round m e k).
Proof.
  unfold nearest_scaled, exact_value, scaled_round.
  destruct (0 <=? e) eqn:E.
  - replace (10 ^ k * (Z.pos m * 2 ^ e) - Z.pos m * 2 ^ e * 10 ^ k * 1) with 0 by ring.
    simpl. lia.
  - apply Z.leb_gt in E.
    replace (10 ^ k * Z.pos m) with (Z.pos m * 10 ^ k) by ring.
    apply round_half_even_div_nearest. apply Z.pow_pos_nonneg; lia.
Qed.

(** *** Exact subtraction and comparison of floats *)

Lemma digits2_pos_bounds (m : positive) :
  2 ^ (Z.pos (digits2_pos m) - 1) <= Z.pos m < 2 ^ Z.pos (digits2_pos m).
Proof.
  induction m as [m IH|m IH|]; cbn [digits2_pos].
  - rewrite Pos2Z.inj_succ.
    replace (Z.succ (Z.pos (digits2_pos m)) - 1) with (Z.succ (Z.pos (digits2_pos m) - 1)) by lia.
    rewrite !Z.pow_succ_r by lia. lia.
  - rewrite Pos2Z.inj_succ.
    replace (Z.succ (Z.pos (digits2_pos m)) - 1) with (Z.succ (Z.pos (digits2_pos m) - 1)) by lia.
    rewrite !Z.pow_succ_r by lia. lia.
  - simpl. lia.
Qed.

Lemma shifted_succ (m : positive) (p : positive) :
  Pos.iter xO m (Pos.succ p) = xO (Pos.iter xO m p).
Proof. apply Pos.iter_succ. Qed.

Lemma shifted_value (m : positive) (k : Z) :
  0 <= k -> Z.pos (shifted m k) = Z.pos m * 2 ^ k.
Proof.
  destruct k as [|p|p]; intros Hk; try lia; simpl shifted.
  - simpl. lia.
  - clear Hk. induction p as [|p IH] using Pos.peano_ind.
    + change (2 ^ 1) with 2. change (Pos.iter xO m 1) with (xO m). lia.
    + rewrite shifted_succ, Pos2Z.inj_succ, Z.pow_succ_r by lia.
      rewrite Pos2Z.inj_xO, IH. lia.
Qed.

Lemma shifted_digits (m : positive) (k : Z) :
  0 <= k -> Z.pos (digits2_pos (shifted m k)) = Z.pos (digits2_pos m) + k.
Proof.
  destruct k as [|p|p]; intros Hk; try lia; simpl shifted.
  - lia.
  - clear Hk. induction p as [|p IH] using Pos.peano_ind.
    + simpl. lia.
    + rewrite shifted_succ. cbn [digits2_pos]. rewrite !Pos2Z.inj_succ, IH. lia.
Qed.

Lemma iter_pos_iter (A : Type) (f : A -> A) (p : positive) (x : A) :
  iter_pos f p x = Pos.iter f x p.
Proof.
  revert x. induction p as [p IH|p IH|]; intros x; simpl.
  - rewrite !IH. now rewrite <- !Pos.iter_swap.
  - now rewrite !IH.
  - reflexivity.
Qed.

Lemma shr_shifted (m : positive) (p : positive) :
  iter_pos shr_1 p {| shr_m := Z.pos (Pos.iter xO m p); shr_r := false; shr_s := false |}
  = {| shr_m := Z.pos m; shr_r := false; shr_s := false |}.
Proof.
  rewrite iter_pos_iter.
  induction p as [|p IH] using Pos.peano_ind.
  - reflexivity.
  - rewrite shifted_succ, Pos.iter_succ, <- Pos.iter_swap. simpl shr_1. exact IH.
Qed.

(** A mantissa of at most 53 digits is normalised without rounding. *)
Lemma binary_round_small (s : bool) (m : positive) (e : Z) :
  Z.pos (digits2_pos m) <= 53 ->
  -1074 <= Z.pos (digits2_pos m) + e - 53 ->
  Z.pos (digits2_pos m) + e <= 1024 ->
  binary_round prec emax s m e
  = S754_finite s (shifted m (53 - Z.pos (digits2_pos m))) (Z.pos (digits2_pos m) + e - 53).
Proof.
  intros Hd Hlo Hhi. unfold binary_round.
  set (d := Z.pos (digits2_pos m)) in *.
  assert (Hf : fexp prec emax (d + e) = d + e - 53).
  { unfold fexp, emin, prec, emax. lia. }
  rewrite Hf.
  assert (Hal : shl_align m e (d + e - 53) = (shifted m (53 - d), d + e - 53)).
  { unfold shl_align, shifted.
    replace (d + e - 53 - e) with (d - 53) by lia.
    destruct (d - 53) as [|q|q] eqn:E; try lia.
    - replace (53 - d) with 0 by lia. f_equal. lia.
    - replace (53 - d) with (Z.pos q) by lia. reflexivity. }
  rewrite Hal.
  assert (Hdm : Z.pos (digits2_pos (shifted m (53 - d))) = 53).
  { rewrite shifted_digits by lia. fold d. lia. }
  unfold binary_round_aux.
  assert (Hs : shr_fexp prec emax (Z.pos (shifted m (53 - d))) (d + e - 53) loc_Exact
               = ({| shr_m := Z.pos (shifted m (53 - d)); shr_r := false; shr_s := false |},
                  d + e - 53)).
  { unfold shr_fexp. cbn [Zdigits2]. rewrite Hdm.
    replace (fexp prec emax (53 + (d + e - 53)) - (d + e - 53)) with 0
      by (unfold fexp, emin, prec, emax; lia).
    reflexivity. }
  rewrite Hs. cbn [shr_m loc_of_shr_record round_nearest_even]. rewrite Hs.
  cbn [shr_m].
  replace (d + e - 53 <=? emax - prec) with true
    by (symmetry; apply Z.leb_le; unfold emax, prec; lia).
  reflexivity.
Qed.

(** An integer that is a 53-digit mantissa times a power of two
    converts to the float of that mantissa and exponent. *)
Lemma float_of_int_shifted (m : positive) (e : Z) :
  Z.pos (digits2_pos m) = 53 -> 0 <= e <= 971 ->
  float_of_int (Z.pos (shifted m e)) = S754_finite false m e.
Proof.
  intros Hd He. unfold float_of_int. cbn [binary_normalize].
  destruct e as [|p|p]; try lia.
  - cbn [shifted]. rewrite binary_round_small by lia.
    rewrite Hd. reflexivity.
  - unfold binary_round.
    assert (Hds : Z.pos (digits2_pos (shifted m (Z.pos p))) = 53 + Z.pos p).
    { rewrite shifted_digits by lia. lia. }
    rewrite Hds.
    replace (fexp prec emax (53 + Z.pos p + 0)) with (Z.pos p)
      by (unfold fexp, emin, prec, emax; lia).
    cbn [shl_align Z.sub Z.opp Z.add].
    unfold binary_round_aux, shr_fexp at 1. cbn [Zdigits2]. rewrite Hds.
    replace (fexp prec emax (53 + Z.pos p + 0) - 0) with (Z.pos p)
      by (unfold fexp, emin, prec, emax; lia).
    cbn [shr_record_of_loc shr shifted]. rewrite shr_shifted.
    cbn [shr_m loc_of_shr_record round_nearest_even].
    unfold shr_fexp. cbn [Zdigits2]. rewrite Hd.
    replace (fexp prec emax (53 + (0 + Z.pos p)) - (0 + Z.pos p)) with 0
      by (unfold fexp, emin, prec, emax; lia).
    cbn [shr_record_of_loc shr shr_m].
    replace (0 + Z.pos p <=? emax - prec) with true
      by (symmetry; apply Z.leb_le; unfold emax, prec; lia).
    reflexivity.
Qed.

Lemma shl_align_fst (mx : positive) (ex ez : Z) :
  ez <= ex -> fst (shl_align mx ex ez) = shifted mx (ex - ez).
Proof.
  intros H. unfold shl_align, shifted.
  destruct (ez - ex) as [|q|q] eqn:E; try lia.
  - replace (ex - ez) with 0 by lia. reflexivity.
  - replace (ex - ez) with (Z.pos q) by lia. reflexivity.
Qed.

Lemma pow2_pos (k : Z) : 0 <= k -> 0 < 2 ^ k.
Proof. intros. now apply Z.pow_pos_nonneg. Qed.

Lemma pow2_split (a b : Z) : 0 <= a <= b -> 2 ^ b = 2 ^ a * 2 ^ (b - a).
Proof. intros H. rewrite <- Z.pow_add_r by lia. f_equal. lia. Qed.

Lemma pow2_digits_le (p : positive) (k : Z) :
  0 <= k -> Z.pos p < 2 ^ k -> Z.pos (digits2_pos p) <= k.
Proof.
  intros Hk Hp. pose proof (digits2_pos_bounds p) as [Hlo _].
  destruct (Z_le_gt_dec (Z.pos (digits2_pos p)) k) as [|Hgt]; [assumption|].
  assert (2 ^ k <= 2 ^ (Z.pos (digits2_pos p) - 1)) by (apply Z.pow_le_mono_r; lia).
  lia.
Qed.

Lemma pow2_digits_ge (p : positive) (k : Z) :
  2 ^ k <= Z.pos p -> k < Z.pos (digits2_pos p).
Proof.
  intros Hp. pose proof (digits2_pos_bounds p) as [_ Hhi].
  destruct (Z_lt_le_dec k (Z.pos (digits2_pos p))) as [|Hle]; [assumption|].
  assert (2 ^ Z.pos (digits2_pos p) <= 2 ^ k) by (apply Z.pow_le_mono_r; lia).
  lia.
Qed.

(** What [bounded] says of a mantissa and its exponent. *)
Lemma bounded_digits (m : positive) (e : Z) :
  bounded prec emax m e = true ->
  Z.pos (digits2_pos m) <= 53 /\ -1074 <= e <= 971
  /\ (-1074 < e -> Z.pos (digits2_pos m) = 53).
Proof.
  unfold bounded, canonical_mantissa, fexp, emin, prec, emax.
  intros H. apply andb_true_iff in H as [H1 H2].
  apply Z.eqb_eq in H1. apply Z.leb_le in H2. lia.
Qed.

(** [<] on two positive floats, read on their exact values. *)
Lemma fltb_exact (m1 : positive) (e1 : Z) (m2 : positive) (e2 k : Z) :
  Z.pos (digits2_pos m1) <= 53 ->
  Z.pos (digits2_pos m2) = 53 ->
  (Z.pos (digits2_pos m1) = 53 \/ e1 <= e2) ->
  0 <= k + e1 -> 0 <= k + e2 ->
  fltb (S754_finite false m1 e1) (S754_finite false m2 e2) = true
  <-> Z.pos m1 * 2 ^ (k + e1) < Z.pos m2 * 2 ^ (k + e2).
Proof.
  intros Hd1 Hd2 Hn Hk1 Hk2.
  pose proof (digits2_pos_bounds m1) as [Hlo1 Hhi1].
  pose proof (digits2_pos_bounds m2) as [Hlo2 Hhi2].
  rewrite Hd2 in Hlo2, Hhi2. change (2 ^ (53 - 1)) with 4503599627370496 in Hlo2.
  change (2 ^ 53) with 9007199254740992 in Hhi2.
  assert (Hm1 : Z.pos m1 < 9007199254740992).
  { assert (2 ^ Z.pos (digits2_pos m1) <= 2 ^ 53) by (apply Z.pow_le_mono_r; lia).
    change (2 ^ 53) with 9007199254740992 in *. lia. }
  unfold fltb, SFltb, SFcompare.
  destruct (Z.compare_spec e1 e2) as [He|He|He].
  - subst e2. fold (Pos.compare m1 m2).
    pose proof (pow2_pos Hk1) as Hp.
    destruct (Pos.compare_spec m1 m2) as [Hc|Hc|Hc]; split; intros H;
      try discriminate; try reflexivity.
    + subst m2. lia.
    + assert (Z.pos m1 < Z.pos m2) by lia. nia.
    + assert (Z.pos m2 < Z.pos m1) by lia. nia.
  - split; [intros _|reflexivity].
    rewrite (@pow2_split (k + e1) (k + e2)) by lia.
    pose proof (pow2_pos Hk1) as Hp.
    assert (Hq : 2 ^ 1 <= 2 ^ (k + e2 - (k + e1))) by (apply Z.pow_le_mono_r; lia).
    change (2 ^ 1) with 2 in Hq.
    set (P := 2 ^ (k + e1)) in *. set (Q := 2 ^ (k + e2 - (k + e1))) in *.
    assert (P * 2 <= P * Q) by nia.
    assert (Z.pos m1 * P < 9007199254740992 * P) by nia.
    assert (4503599627370496 * (P * Q) <= Z.pos m2 * (P * Q)) by nia.
    lia.
  - split; [discriminate|intros H; exfalso].
    destruct Hn as [Hn|Hn]; [|lia].
    rewrite Hn in Hlo1. change (2 ^ (53 - 1)) with 4503599627370496 in Hlo1.
    rewrite (@pow2_split (k + e2) (k + e1)) in H by lia.
    pose proof (pow2_pos Hk2) as Hp.
    assert (Hq : 2 ^ 1 <= 2 ^ (k + e1 - (k + e2))) by (apply Z.pow_le_mono_r; lia).
    change (2 ^ 1) with 2 in Hq.
    set (P := 2 ^ (k + e2)) in *. set (Q := 2 ^ (k + e1 - (k + e2))) in *.
    assert (P * 2 <= P * Q) by nia.
    assert (Z.pos m2 * P < 9007199254740992 * P) by nia.
    assert (4503599627370496 * (P * Q) <= Z.pos m1 * (P * Q)) by nia.
    lia.
Qed.

Lemma decimal_1_9 : decimal 1 9 = S754_finite false 4835703278458517 (-82).
Proof. vm_compute. reflexivity. Qed.

(** Below the float [1e-9], for a multiple of [2^e] with [-82 <= e]:
    the same as below the real number [10^-9]. *)
Lemma below_1e9 (a e : Z) :
  0 <= a -> -82 <= e <= 0 ->
  a * 2 ^ (82 + e) < 4835703278458517 <-> a * 10 ^ 9 < 2 ^ (- e).
Proof.
  intros Ha He.
  assert (H82 : 2 ^ 82 = 2 ^ (82 + e) * 2 ^ (- e)).
  { rewrite <- Z.pow_add_r by lia. f_equal. lia. }
  pose proof (@pow2_pos (82 + e) ltac:(lia)) as Hp.
  pose proof (@pow2_pos (- e) ltac:(lia)) as Hq.
  change (2 ^ 82) with 4835703278458516698824704 in H82.
  change (10 ^ 9) with 1000000000.
  split; intros H.
  - assert (a * 2 ^ (82 + e) + 1 <= 4835703278458517) by lia.
    assert (a * 1000000000 * 2 ^ (82 + e) < 2 ^ (82 + e) * 2 ^ (- e)) by nia.
    nia.
  - assert (a * 1000000000 * 2 ^ (82 + e) < 2 ^ (82 + e) * 2 ^ (- e)) by nia.
    nia.
Qed.

(** [x - n] is exact when [n] is an integer nearest to [x], for a
    positive [x] that is not an integer multiple of a power of two
    above one: the float of the difference has the value
    [(m - n * 2^-e) * 2^e]. *)
Lemma fsub_nearest (m np : positive) (e : Z) :
  bounded prec emax m e = true ->
  e < 0 ->
  Z.abs (2 * (Z.pos m - Z.pos np * 2 ^ (- e))) <= 2 ^ (- e) ->
  -53 <= e
  /\ fsub (S754_finite false m e) (float_of_int (Z.pos np))
     = binary_normalize prec emax (Z.pos m - Z.pos np * 2 ^ (- e)) e false.
Proof.
  intros Hb He Hn.
  apply bounded_digits in Hb as (Hd & Hrange & Hnormal).
  pose proof (digits2_pos_bounds m) as [Hlo Hhi].
  pose proof (digits2_pos_bounds np) as [Hnlo Hnhi].
  pose proof (@pow2_pos (- e) ltac:(lia)) as Hq.
  set (q := 2 ^ (- e)) in *.
  set (d := Z.pos (digits2_pos m)) in *.
  set (dn := Z.pos (digits2_pos np)) in *.
  (* the value is at least one half *)
  assert (Hhalf : q <= 2 * Z.pos m) by nia.
  assert (He53 : -53 <= e).
  { destruct (Z_le_gt_dec (-53) e) as [|Hlt]; [assumption|exfalso].
    assert (2 ^ 53 * 2 <= q).
    { unfold q. change (2 ^ 53 * 2) with (2 ^ 54). apply Z.pow_le_mono_r; lia. }
    assert (2 ^ d <= 2 ^ 53) by (apply Z.pow_le_mono_r; lia).
    lia. }
  assert (Hd53 : d = 53) by (apply Hnormal; lia).
  rewrite Hd53 in Hlo, Hhi.
  change (2 ^ (53 - 1)) with 4503599627370496 in Hlo.
  change (2 ^ 53) with 9007199254740992 in Hhi.
  assert (Hq53 : q <= 9007199254740992).
  { unfold q. change 9007199254740992 with (2 ^ 53). apply Z.pow_le_mono_r; lia. }
  assert (Hqq : 2 ^ (53 + e) * q = 9007199254740992).
  { unfold q. rewrite <- Z.pow_add_r by lia. now replace (53 + e + - e) with 53 by lia. }
  (* the digits of n *)
  assert (Hdn_hi : dn <= 54 + e).
  { destruct (Z_le_gt_dec dn (54 + e)) as [|Hgt]; [assumption|exfalso].
    assert (2 ^ (54 + e) <= 2 ^ (dn - 1)) by (apply Z.pow_le_mono_r; lia).
    assert (2 ^ (54 + e) = 2 * 2 ^ (53 + e)).
    { replace (54 + e) with (Z.succ (53 + e)) by lia. apply Z.pow_succ_r. lia. }
    assert (2 * 9007199254740992 <= Z.pos np * q) by nia.
    lia. }
  assert (Hdn_lo : 53 + e <= dn).
  { destruct (Z_le_gt_dec (53 + e) dn) as [|Hgt]; [assumption|exfalso].
    assert (2 ^ dn <= 2 ^ (52 + e)) by (apply Z.pow_le_mono_r; lia).
    assert (2 * 2 ^ (52 + e) = 2 ^ (53 + e)).
    { replace (53 + e) with (Z.succ (52 + e)) by lia. symmetry. apply Z.pow_succ_r. lia. }
    assert ((Z.pos np + 1) * q <= 4503599627370496) by nia.
    lia. }
  split; [assumption|].
  (* the float of n *)
  unfold float_of_int. cbn [binary_normalize].
  rewrite binary_round_small by (fold dn; lia). fold dn.
  unfold fsub, SFsub.
  replace (Z.min e (dn + 0 - 53)) with e by lia.
  rewrite !shl_align_fst by lia.
  cbn [cond_Zopp]. rewrite !shifted_value by lia.
  f_equal. f_equal.
  - replace (e - e) with 0 by lia. change (2 ^ 0) with 1. lia.
  - rewrite <- Z.mul_assoc, <- Z.pow_add_r by lia.
    f_equal. unfold q. f_equal. lia.
Qed.

(** The float of an exact difference of at most one half. *)
Lemma normalize_small (v e : Z) :
  -53 <= e < 0 -> Z.abs (2 * v) <= 2 ^ (- e) ->
  fabs (binary_normalize prec emax v e false) = S754_zero false
  /\ v = 0
  \/ exists (p : positive),
       Z.pos p = Z.abs v
       /\ fabs (binary_normalize prec emax v e false)
          = S754_finite false (shifted p (53 - Z.pos (digits2_pos p)))
              (Z.pos (digits2_pos p) + e - 53)
       /\ Z.pos (digits2_pos p) <= - e.
Proof.
  intros He Hv.
  assert (Hsmall : forall p : positive, 2 * Z.pos p <= 2 ^ (- e) ->
                                        Z.pos (digits2_pos p) <= - e).
  { intros p Hp. apply pow2_digits_le; [lia|].
    replace (- e) with (Z.succ (- e - 1)) in Hp by lia.
    rewrite Z.pow_succ_r in Hp by lia.
    assert (2 ^ (- e - 1) < 2 ^ (- e)) by (apply Z.pow_lt_mono_r; lia).
    lia. }
  destruct v as [|p|p]; [left; split; reflexivity|right; exists p..].
  - assert (Hd : Z.pos (digits2_pos p) <= - e) by (apply Hsmall; lia).
    split; [reflexivity|]. split; [|assumption].
    cbn [binary_normalize]. rewrite binary_round_small by lia. reflexivity.
  - assert (Hd : Z.pos (digits2_pos p) <= - e) by (apply Hsmall; lia).
    split; [reflexivity|]. split; [|assumption].
    cbn [binary_normalize]. rewrite binary_round_small by lia. reflexivity.
Qed.

(** The test [abs(x - n) < 1e-9] of the formatters, made in floats,
    for a positive float [x = m * 2^e] below [2^53] and an integer [n]
    nearest to it: it holds exactly when the distance of [x] from [n]
    is below [10^-9]. *)
Lemma near_test_frac (m : positive) (e n : Z) :
  bounded prec emax m e = true ->
  e < 0 -> 0 <= n ->
  Z.abs (2 * (Z.pos m - n * 2 ^ (- e))) <= 2 ^ (- e) ->
  fltb (fabs (fsub (S754_finite false m e) (float_of_int n))) (decimal 1 9) = true
  <-> Z.abs (Z.pos m - n * 2 ^ (- e)) * 10 ^ 9 < 2 ^ (- e).
Proof.
  intros Hb He Hn Hnear. rewrite decimal_1_9.
  pose proof (@pow2_pos (- e) ltac:(lia)) as Hq.
  destruct n as [|np|np]; [|clear Hn|lia].
  - (* nothing is subtracted *)
    change (float_of_int 0) with (S754_zero false).
    cbn [fsub SFsub fabs SFabs]. rewrite Z.mul_0_l, Z.sub_0_r.
    apply bounded_digits in Hb as (Hd & Hrange & Hnormal).
    destruct (Z_le_gt_dec (-82) e) as [Hbig|Hsmall].
    + rewrite (@fltb_exact m e 4835703278458517 (-82) 82 Hd eq_refl) by lia.
      change (2 ^ (82 + -82)) with 1.
      rewrite Z.mul_1_r, <- below_1e9 by lia. simpl Z.abs. reflexivity.
    + rewrite (@fltb_exact m e 4835703278458517 (-82) 1074 Hd eq_refl) by lia.
      pose proof (digits2_pos_bounds m) as [_ Hhi].
      assert (Hm : Z.pos m < 2 ^ 53).
      { assert (2 ^ Z.pos (digits2_pos m) <= 2 ^ 53) by (apply Z.pow_le_mono_r; lia). lia. }
      change (2 ^ 53) with 9007199254740992 in Hm.
      simpl Z.abs. change (10 ^ 9) with 1000000000.
      assert (H83 : 2 ^ 83 <= 2 ^ (- e)) by (apply Z.pow_le_mono_r; lia).
      change (2 ^ 83) with 9671406556917033397649408 in H83.
      pose proof (@pow2_pos (1074 + e) ltac:(lia)) as Hp.
      assert (Hs : 2 ^ (1074 + -82) = 2 ^ (1074 + e) * 2 ^ (-82 - e)).
      { rewrite <- Z.pow_add_r by lia. f_equal. lia. }
      assert (H1 : 2 ^ 1 <= 2 ^ (-82 - e)) by (apply Z.pow_le_mono_r; lia).
      change (2 ^ 1) with 2 in H1.
      rewrite Hs.
      set (P := 2 ^ (1074 + e)) in *. set (Q := 2 ^ (-82 - e)) in *.
      split; intros _; [lia|].
      assert (P * 2 <= P * Q) by nia.
      assert (Z.pos m * P < 9007199254740992 * P) by nia.
      lia.
  - destruct (fsub_nearest m np Hb He Hnear) as [He53 Hsub]. rewrite Hsub.
    destruct (@normalize_small (Z.pos m - Z.pos np * 2 ^ (- e)) e ltac:(lia) Hnear)
      as [[Hz Hv]|(p & Hp & Hf & Hd)].
    + rewrite Hz, Hv. simpl Z.abs. split; [lia|reflexivity].
    + rewrite Hf, <- Hp.
      pose proof (digits2_pos_bounds p) as [Hplo Hphi].
      set (d := Z.pos (digits2_pos p)) in *.
      assert (H1 : 1 <= d) by (unfold d; lia).
      rewrite (@fltb_exact _ (d + e - 53) 4835703278458517 (-82) 135)
        by (try rewrite shifted_digits by lia; try reflexivity; fold d; lia).
      rewrite shifted_value by lia.
      rewrite <- Z.mul_assoc, <- Z.pow_add_r by lia.
      replace (53 - d + (135 + (d + e - 53))) with (53 + (82 + e)) by lia.
      rewrite Z.pow_add_r by lia.
      change (2 ^ (135 + -82)) with (2 ^ 53).
      rewrite <- below_1e9 by lia.
      pose proof (@pow2_pos (82 + e) ltac:(lia)) as Hpp.
      change (2 ^ 53) with 9007199254740992. nia.
Qed.

(** A float that is an integer: [x - round(x)] is zero. *)
Lemma near_test_whole (m : positive) (e : Z) :
  bounded prec emax m e = true ->
  0 <= e ->
  fltb (fabs (fsub (S754_finite false m e) (float_of_int (Z.pos m * 2 ^ e))))
       (decimal 1 9) = true.
Proof.
  intros Hb He. rewrite decimal_1_9.
  apply bounded_digits in Hb as (Hd & Hrange & Hnormal).
  rewrite <- shifted_value by assumption.
  rewrite float_of_int_shifted by lia.
  unfold fsub, SFsub. rewrite Z.min_id.
  unfold shl_align. rewrite Z.sub_diag. cbn [fst cond_Zopp].
  try rewrite Z.sub_diag. reflexivity.
Qed.

(** The formatters' test in floats and the distance of the exact
    values, for a positive binary64 value and the integer it rounds to. *)
Lemma near_integer_exact (m : positive) (e : Z) :
  bounded prec emax m e = true ->
  near_integer (Float (S754_finite false m e)) (scaled_round m e 0) = true
  <-> within_1e9 (Float (S754_finite false m e)) (scaled_round m e 0).
Proof.
  intros Hb. unfold near_integer, within_1e9.
  cbn [PyNum.sub_int PyNum.abs PyNum.lt_float exact_value].
  pose proof (scaled_round_nearest m e 0) as Hn.
  pose proof (@scaled_round_nonneg m e 0 ltac:(lia)) as H0.
  unfold nearest_scaled in Hn. cbn [exact_value] in Hn.
  unfold scaled_round in *. change (10 ^ 0) with 1 in *.
  destruct (0 <=? e) eqn:E.
  - apply Z.leb_le in E. rewrite Z.mul_1_r.
    rewrite (near_test_whole m Hb E).
    replace (Z.pos m * 2 ^ e - Z.pos m * 2 ^ e * 1) with 0 by ring.
    simpl. split; [lia|reflexivity].
  - apply Z.leb_gt in E. rewrite Z.mul_1_r in *. rewrite Z.mul_1_l in Hn.
    apply near_test_frac; assumption.
Qed.

(** Only the integer nearest to a value can be within [10^-9] of it. *)
Lemma within_1e9_nearest (x : number) (n k : Z) :
  (0 < snd (exact_value x)) ->
  nearest_scaled x 0 n -> within_1e9 x k -> k = n.
Proof.
  unfold nearest_scaled, within_1e9. destruct (exact_value x) as [p q].
  cbn [snd]. change (10 ^ 0) with 1. change (10 ^ 9) with 1000000000.
  intros Hq Hn Hk. rewrite Z.mul_1_l in Hn.
  destruct (Z.lt_trichotomy k n) as [H|[H|H]]; [exfalso|assumption|exfalso].
  - assert (k * q + q <= n * q) by nia. lia.
  - assert (n * q + q <= k * q) by nia. lia.
Qed.

Lemma exact_value_denominator (x : number) : 0 < snd (exact_value x).
Proof.
  destruct x as [z | [s | s | | s m e]]; cbn [exact_value snd]; try lia.
  destruct (0 <=? e) eqn:E; cbn [snd]; [lia|].
  apply Z.leb_gt in E. apply Z.pow_pos_nonneg; lia.
Qed.

Lemma am_atgpu_formats_capacity (x : number) :
  number_is_finite x = true ->
  number_in_format x = true ->
  formats_capacity am_atgpu._format_memory_capacity x.
Proof.
  intros Hfin Hfmt. unfold formats_capacity.
  pose proof (exact_value_denominator x) as Hq.
  destruct x as [z | [s | s | | s m e]]; try discriminate; cbn [exact_value].
  - (* an int *)
    split.
    + intros Hz. unfold am_atgpu._format_memory_capacity. simpl.
      apply Z.leb_le in Hz. now rewrite Hz.
    + intros Hz.
      assert (Hnear : near_integer (Int z) z = true).
      { unfold near_integer. simpl. now rewrite Z.sub_diag. }
      assert (Hin : within_1e9 (Int z) z).
      { unfold within_1e9. cbn [exact_value]. rewrite Z.mul_1_r, Z.sub_diag.
        reflexivity. }
      assert (Hfmt_z : am_atgpu._format_memory_capacity (Some (Int z))
                       = Ok (str_of_int z ++ lit "GB")).
      { unfold am_atgpu._format_memory_capacity.
        cbn [PyNum.le_zero PyNum.round bind].
        apply Z.leb_gt in Hz. rewrite Hz.
        fold (near_integer (Int z) z). now rewrite Hnear. }
      split.
      * intros k Hk.
        assert (k = z) as ->; [|exact Hfmt_z].
        apply (@within_1e9_nearest (Int z) z k); [exact Hq| |exact Hk].
        unfold nearest_scaled. cbn [exact_value]. change (10 ^ 0) with 1. lia.
      * intros Hnone. now destruct (Hnone z).
  - (* a zero *)
    split; [|lia]. intros _. now destruct s.
  - (* a finite float that is not zero *)
    destruct s.
    + assert (Hneg : forall p q,
                 (if 0 <=? e then (Z.neg m * 2 ^ e, 1) else (Z.neg m, 2 ^ (- e))) = (p, q) ->
                 p < 0).
      { intros p q. pose proof (Pos2Z.neg_is_neg m).
        destruct (0 <=? e) eqn:E; intros [= <- <-]; [|assumption].
        apply Z.leb_le in E. pose proof (Z.pow_pos_nonneg 2 e eq_refl E).
        change (Z.neg m * 2 ^ e < 0). nia. }
      destruct (if 0 <=? e then _ else _) as [p q] eqn:Ev.
      specialize (Hneg p q eq_refl).
      split; [reflexivity | lia].
    + assert (Hpos : forall p q,
                 (if 0 <=? e then (Z.pos m * 2 ^ e, 1) else (Z.pos m, 2 ^ (- e))) = (p, q) ->
                 0 < p).
      { intros p q. pose proof (Pos2Z.is_pos m).
        destruct (0 <=? e) eqn:E; intros [= <- <-]; [|assumption].
        apply Z.leb_le in E. pose proof (Z.pow_pos_nonneg 2 e eq_refl E).
        change (0 < Z.pos m * 2 ^ e). nia. }
      destruct (if 0 <=? e then _ else _) as [p q] eqn:Ev.
      specialize (Hpos p q eq_refl).
      split; [lia|]. intros _.
      cbn [number_in_format valid_binary] in Hfmt.
      pose proof (near_integer_exact m e Hfmt) as Hexact.
      split.
      * intros k Hk.
        assert (k = scaled_round m e 0) as ->.
        { apply (@within_1e9_nearest (Float (S754_finite false m e)) _ k);
            [exact Hq|apply scaled_round_nearest|exact Hk]. }
        apply Hexact in Hk.
        unfold am_atgpu._format_memory_capacity.
        cbn [PyNum.le_zero PyNum.round round_to_int bind].
        change (fleb (S754_finite false m e) zero) with false. cbv iota.
        fold (near_integer (Float (S754_finite false m e)) (scaled_round m e 0)).
        now rewrite Hk.
      * intros Hnone.
        assert (Hnear : near_integer (Float (S754_finite false m e)) (scaled_round m e 0)
                        = false).
        { apply not_true_is_false. intros En. apply Hexact in En.
          exact (Hnone _ En). }
        exists (scaled_round m e 3).
        split; [apply scaled_round_nonneg; lia|]. split.
        { apply scaled_round_nearest. }
        unfold am_atgpu._format_memory_capacity.
        cbn [PyNum.le_zero PyNum.round round_to_int bind].
        change (fleb (S754_finite false m e) zero) with false. cbv iota.
        fold (near_integer (Float (S754_finite false m e)) (scaled_round m e 0)).
        now rewrite Hnear.
Qed.

(** C7, amended: on every number that has a value (an int, or a float
    of the binary64 format other than NaN and the infinities) both
    capacity formatters return "0GB" when the value is not positive;
    the integer followed by "GB" when the value is positive and less
    than [10^-9] away from that integer; and, when the value is positive
    and no integer is that near, the value rounded to three decimals
    with the trailing zeros and then a trailing point removed, followed
    by "GB". So 0 gives "0GB", 8.0 gives "8GB", 8.5 gives "8.5GB" and -1
    gives "0GB"; 7.9999999999 gives "8GB" and 12.3456 gives "12.346GB". *)
Theorem format_memory_capacity_number (x : number)
  (Hfinite : number_is_finite x = true)
  (Hformat : number_in_format x = true) :
  formats_capacity am_atgpu._format_memory_capacity x
  /\ formats_capacity nvgpu._format_memory_capacity x
  /\ am_atgpu._format_memory_capacity (Some (Int 0)) = Ok (lit "0GB")
  /\ am_atgpu._format_memory_capacity (Some (Float (decimal 80 1))) = Ok (lit "8GB")
  /\ am_atgpu._format_memory_capacity (Some (Float (decimal 85 1))) = Ok (lit "8.5GB")
  /\ am_atgpu._format_memory_capacity (Some (Int (-1))) = Ok (lit "0GB")
  /\ am_atgpu._format_memory_capacity (Some (Float (decimal 79999999999 10)))
     = Ok (lit "8GB")
  /\ am_atgpu._format_memory_capacity (Some (Float (decimal 123456 4)))
     = Ok (lit "12.346GB")
  /\ nvgpu._format_memory_capacity (Some (Int 0)) = Ok (lit "0GB")
  /\ nvgpu._format_memory_capacity (Some (Float (decimal 80 1))) = Ok (lit "8GB")
  /\ nvgpu._format_memory_capacity (Some (Float (decimal 85 1))) = Ok (lit "8.5GB")
  /\ nvgpu._format_memory_capacity (Some (Int (-1))) = Ok (lit "0GB")
  /\ nvgpu._format_memory_capacity (Some (Float (decimal 79999999999 10)))
     = Ok (lit "8GB")
  /\ nvgpu._format_memory_capacity (Some (Float (decimal 123456 4)))
     = Ok (lit "12.346GB").
Proof.
  pose proof (am_atgpu_formats_capacity x Hfinite Hformat) as H.
  split; [exact H|]. split.
  - unfold formats_capacity in *. destruct (exact_value x) as [p q].
    destruct H as [H0 H1]. split.
    + intros Hp. rewrite format_memory_capacity_agree. auto.
    + intros Hp. destruct (H1 Hp) as [Ha Hb]. split.
      * intros k Hk. rewrite format_memory_capacity_agree. auto.
      * intros Hnone. destruct (Hb Hnone) as [t Ht]. exists t.
        rewrite format_memory_capacity_agree. exact Ht.
  - repeat split; vm_compute; reflexivity.
Qed.

(** The formatter on 12.3456 gigabytes, which no integer is near, and
    on 7.9999999999 gigabytes, which is near 8. *)
Lemma format_memory_capacity_number_witness :
  number_is_finite (Float (decimal 123456 4)) = true
  /\ number_in_format (Float (decimal 123456 4)) = true
  /\ formats_capacity am_atgpu._format_memory_capacity (Float (decimal 123456 4))
  /\ formats_capacity nvgpu._format_memory_capacity (Float (decimal 79999999999 10)).
Proof.
  split; [reflexivity|]. split; [reflexivity|]. split.
  - apply (format_memory_capacity_number (Float (decimal 123456 4)) eq_refl eq_refl).
  - apply (format_memory_capacity_number (Float (decimal 79999999999 10)) eq_refl eq_refl).
Defined.

(** C7 as stated does not hold of every numeric size: NaN and the
    positive infinity are numbers of the scripts, neither is at most
    zero, and on them the formatters raise instead of returning a text;
    on the negative infinity they return "0GB". *)
Lemma format_memory_capacity_not_finite :
  am_atgpu._format_memory_capacity (Some (Float S754_nan)) = Raise ValueError
  /\ am_atgpu._format_memory_capacity (Some (Float (S754_infinity false)))
     = Raise OverflowError
  /\ nvgpu._format_memory_capacity (Some (Float S754_nan)) = Raise ValueError
  /\ nvgpu._format_memory_capacity (Some (Float (S754_infinity false)))
     = Raise OverflowError
  /\ am_atgpu._format_memory_capacity (Some (Float (S754_infinity true)))
     = Ok (lit "0GB").
Proof. repeat split. Qed.

Local Close Scope Z_scope.

(* ================================================================= *)
(** ** The fields of a retained row *)

Lemma dropwhile_nil (p : N -> bool) (s : str) :
  dropwhile p s = [] <-> forallb p s = true.
Proof.
  induction s as [|c s IH]; simpl; [tauto|].
  destruct (p c); simpl; [exact IH|]. split; discriminate.
Qed.

Lemma dropwhile_head (p : N -> bool) (s : str) (c : N) (t : str) :
  dropwhile p s = c :: t -> p c = false.
Proof.
  induction s as [|d s IH]; simpl; [discriminate|].
  destruct (p d) eqn:E; [exact IH|]. now intros [= <- <-].
Qed.

Lemma forallb_dropwhile (p : N -> bool) (s : str) :
  forallb p (dropwhile p s) = true -> forallb p s = true.
Proof.
  induction s as [|c s IH]; simpl; [auto|].
  destruct (p c) eqn:E; simpl; [exact IH|]. now rewrite E.
Qed.

Lemma forallb_reversed (p : N -> bool) (s : str) :
  forallb p (rev s) = true -> forallb p s = true.
Proof.
  rewrite !forallb_forall. intros H x Hx. apply H. now apply in_rev in Hx.
Qed.

(** [s.strip()] is empty exactly when [s] is white space only. *)
Lemma strip_nil (s : str) : strip s = [] <-> forallb isspace s = true.
Proof.
  unfold strip, rstrip, lstrip. split.
  - intros H. apply (f_equal (@rev N)) in H. rewrite rev_involutive in H.
    simpl in H. apply dropwhile_nil, forallb_reversed in H.
    now apply forallb_dropwhile.
  - intros H. apply dropwhile_nil in H. now rewrite H.
Qed.

Lemma am_atgpu_capacity_nonempty (x : option number) (s : str) :
  am_atgpu._format_memory_capacity x = Ok s -> s <> [].
Proof.
  destruct x as [x|]; [|now intros [= <-]].
  unfold am_atgpu._format_memory_capacity.
  destruct (PyNum.le_zero x); [now intros [= <-]|].
  destruct (PyNum.round x) as [n|e]; simpl; [|discriminate].
  destruct (PyNum.lt_float _ _); intros [= <-] H;
    apply app_eq_nil in H as [_ H]; discriminate.
Qed.

(** What does hold of a row built from a specification: the capacity
    string is never empty, and the memory type string is empty exactly
    when the specification's memory type is a non-empty string of white
    space. *)
Lemma am_atgpu_row_from_spec_fields (spec : dbgpu.GPUSpecification)
  (r : am_atgpu.AmdAtiGpuRow) :
  am_atgpu._row_from_spec spec = Ok r ->
  am_atgpu.memory_capacity r <> []
  /\ (am_atgpu.memory_type r = [] <->
      exists s, dbgpu.memory_type spec = Some s
                /\ s <> [] /\ forallb isspace s = true).
Proof.
  unfold am_atgpu._row_from_spec.
  destruct (am_atgpu._format_memory_capacity (dbgpu.memory_size_gb spec))
    as [cap|e] eqn:Hcap; simpl; [|discriminate].
  intros [= <-]. simpl. split.
  - eapply am_atgpu_capacity_nonempty, Hcap.
  - rewrite strip_nil.
    destruct (dbgpu.memory_type spec) as [[|c s]|]; simpl.
    + split; [discriminate|]. intros [s [[= <-] [Hs _]]]. congruence.
    + split.
      * intros H. exists (c :: s). repeat split; [discriminate|exact H].
      * intros [s' [[= <-] [_ H]]]. exact H.
    + split; [discriminate|]. intros [s [Hs _]]. discriminate.
Qed.

(** C2 fails on the code: a specification whose memory type is one space
    passes the filters of both exporters and is retained as a row whose
    memory type is the empty string. *)
Theorem blank_memory_type_row :
  am_atgpu.iter_amd_ati_gpu_rows ascii_casefold_char
    [ dbgpu.Build_GPUSpecification (lit "AMD") (Some (lit "Radeon"))
        (Some (Float (decimal 80 1))) (Some (lit " ")) ]
  = Ok [ am_atgpu.Build_AmdAtiGpuRow (lit "Radeon") (lit "8GB") [] ]
  /\ nvgpu.iter_nvidia_gpu_rows ascii_casefold_char
       [ dbgpu.Build_GPUSpecification (lit "NVIDIA") (Some (lit "GeForce"))
           (Some (Float (decimal 80 1))) (Some (lit " ")) ]
     = Ok [ nvgpu.Build_NvidiaGpuRow (lit "GeForce") (lit "8GB") [] ].
Proof. split; vm_compute; reflexivity. Qed.

(** The two records of the specification's end-to-end example: the
    Tegra chip is dropped and one row remains. *)
Example nvidia_end_to_end :
  (rows <- nvgpu.iter_nvidia_gpu_rows ascii_casefold_char
     [ dbgpu.Build_GPUSpecification (lit "NVIDIA") (Some (lit "GeForce RTX 4090"))
         (Some (Int 24)) (Some (lit "GDDR6X"));
       dbgpu.Build_GPUSpecification (lit "NVIDIA") (Some (lit "Tegra X1"))
         (Some (Int 4)) (Some (lit "LPDDR4")) ] ;;
   Ok (List.map nvgpu.to_line (nvgpu.build_unique_sorted_rows ascii_lower_str rows)))
  = Ok [ [dquote] ++ lit "GeForce RTX 4090" ++ [dquote] ++ lit " "
           ++ [dquote] ++ lit "24GB GDDR6X" ++ [dquote] ].
Proof. vm_compute. reflexivity. Qed.

(* ================================================================= *)
(** ** The order of floats *)

Ltac float_cases a b :=
  destruct a as [[|] | [|] | | [|] ? ?], b as [[|] | [|] | | [|] ? ?];
  unfold not_nan; simpl; try discriminate; intros _ _.

Ltac compare_cases :=
  repeat match goal with
    | |- context [Z.compare ?x ?y] => destruct (Z.compare_spec x y)
    | |- context [Pos.compare_cont Eq ?x ?y] =>
        change (Pos.compare_cont Eq x y) with (Pos.compare x y);
        destruct (Pos.compare_spec x y)
    end.

Lemma fltb_rank (a b : float) :
  not_nan a -> not_nan b ->
  (fltb a b = true <-> rank_lt (rank a) (rank b)).
Proof.
  float_cases a b; unfold fltb, SFltb, SFcompare, rank_lt; compare_cases; simpl;
    split; intros Hx; try reflexivity; try discriminate; lia.
Qed.

Lemma feqb_rank (a b : float) :
  not_nan a -> not_nan b ->
  (feqb a b = true <-> rank a = rank b).
Proof.
  float_cases a b; unfold feqb, SFeqb, SFcompare; compare_cases; simpl;
    split; intros Hx; try reflexivity; try discriminate;
    try (injection Hx; intros; lia); try (f_equal; [f_equal|]; lia).
Qed.

Lemma rank_lt_asym (a b : Z * Z * Z) : rank_lt a b -> ~ rank_lt b a.
Proof. destruct a as [[a1 a2] a3], b as [[b1 b2] b3]. simpl. lia. Qed.

Lemma rank_lt_total (a b : Z * Z * Z) : rank_lt a b \/ a = b \/ rank_lt b a.
Proof.
  destruct a as [[a1 a2] a3], b as [[b1 b2] b3]. simpl.
  destruct (Z.lt_total a1 b1) as [?|[?|?]]; [lia| |lia].
  destruct (Z.lt_total a2 b2) as [?|[?|?]]; [lia| |lia].
  destruct (Z.lt_total a3 b3) as [?|[?|?]]; [lia| |lia].
  right. left. congruence.
Qed.

Lemma rank_ge_trans (a b c : Z * Z * Z) :
  ~ rank_lt b a -> ~ rank_lt c b -> ~ rank_lt c a.
Proof.
  destruct a as [[a1 a2] a3], b as [[b1 b2] b3], c as [[c1 c2] c3]. simpl. lia.
Qed.

Lemma fltb_false_rank (a b : float) :
  not_nan a -> not_nan b ->
  (fltb a b = false <-> ~ rank_lt (rank a) (rank b)).
Proof.
  intros Ha Hb. rewrite <- (fltb_rank Ha Hb).
  destruct (fltb a b); split; congruence.
Qed.

Lemma fltb_asym (a b : float) :
  not_nan a -> not_nan b -> fltb a b = true -> fltb b a = false.
Proof.
  intros Ha Hb H. apply (fltb_false_rank Hb Ha).
  apply rank_lt_asym. now apply (fltb_rank Ha Hb).
Qed.

Lemma fltb_ge_trans (a b c : float) :
  not_nan a -> not_nan b -> not_nan c ->
  fltb b a = false -> fltb c b = false -> fltb c a = false.
Proof.
  intros Ha Hb Hc H1 H2.
  apply (fltb_false_rank Hc Ha).
  apply rank_ge_trans with (b := rank b).
  - now apply (fltb_false_rank Hb Ha).
  - now apply (fltb_false_rank Hc Hb).
Qed.

Lemma feqb_refl (a : float) : not_nan a -> feqb a a = true.
Proof. intros Ha. now apply (feqb_rank Ha Ha). Qed.

Lemma feqb_sym (a b : float) :
  not_nan a -> not_nan b -> feqb a b = feqb b a.
Proof.
  intros Ha Hb. destruct (feqb a b) eqn:E1, (feqb b a) eqn:E2; try reflexivity.
  - apply (feqb_rank Ha Hb) in E1. symmetry in E1.
    apply (feqb_rank Hb Ha) in E1. congruence.
  - apply (feqb_rank Hb Ha) in E2. symmetry in E2.
    apply (feqb_rank Ha Hb) in E2. congruence.
Qed.

(** Of two floats that are not NaN and not equal, one is below the
    other. *)
Lemma fltb_total (a b : float) :
  not_nan a -> not_nan b ->
  feqb a b = false -> fltb b a = false -> fltb a b = true.
Proof.
  intros Ha Hb He Hl. apply (fltb_rank Ha Hb).
  destruct (rank_lt_total (rank a) (rank b)) as [H|[H|H]]; [assumption| |].
  - apply (feqb_rank Ha Hb) in H. congruence.
  - apply (fltb_rank Hb Ha) in H. congruence.
Qed.

(* ================================================================= *)
(** ** The frequency formatter: reading the entries *)

Lemma split_once_spec (sep : N) (a b : str) :
  ~ In sep a -> split_once sep (a ++ [sep] ++ b) = (a, b).
Proof.
  induction a as [|c a IH]; simpl; intros Ha.
  - now rewrite N.eqb_refl.
  - destruct (N.eqb_spec c sep) as [->|Hc]; [tauto|].
    simpl in IH. rewrite IH by tauto. reflexivity.
Qed.


Lemma str_in_char (c : N) (s : str) : str_in [c] s = true <-> In c s.
Proof.
  rewrite str_in_spec. unfold occurs_in. split.
  - intros [pre [suf ->]]. rewrite in_app_iff. simpl. tauto.
  - intros H. apply in_split in H as [pre [suf ->]]. now exists pre, suf.
Qed.

Section FreqEntries.
Variable float_of_str : str -> option float.

(** The multipliers of the specification are the floats nearest to
    the powers of ten. *)
Lemma unit_multipliers_nearest :
  nearest_to_power_of_ten one_gigahertz 0
  /\ nearest_to_power_of_ten one_megahertz 3
  /\ nearest_to_power_of_ten one_kilohertz 6
  /\ nearest_to_power_of_ten one_hertz 9.
Proof.
  repeat split; try reflexivity; vm_compute; discriminate.
Qed.



Lemma blank_has_no_pipe (part : str) :
  is_empty (strip part) = true -> str_in [intcpu.pipe] part = false.
Proof.
  intros H. destruct (strip part) eqn:E; [|discriminate].
  apply strip_nil in E. rewrite forallb_forall in E.
  destruct (str_in [intcpu.pipe] part) eqn:Hin; [|reflexivity].
  apply str_in_char, E in Hin. discriminate.
Qed.

(** One turn of the loop adds the entry's value when the entry parses
    and leaves [ghz_vals] alone otherwise. *)
Lemma scan_part_fst (g : list float) (u : list str) (part : str) :
  fst (intcpu.scan_part float_of_str (g, u) part)
  = g ++ match parsed_value float_of_str part with
         | Some v => [v]
         | None => []
         end.
Proof.
  unfold intcpu.scan_part, parsed_value.
  destruct (is_empty (strip part)) eqn:Hb.
  - rewrite (blank_has_no_pipe _ Hb). simpl. now rewrite app_nil_r.
  - destruct (str_in [intcpu.pipe] part); cbn [negb fst];
      [|now rewrite app_nil_r].
    destruct (split_once intcpu.pipe part) as [amount_s unit].
    destruct (float_of_str _); [|cbn [fst]; now rewrite app_nil_r].
    destruct (PyDict.get str_eqb intcpu.UNIT_TO_GHZ unit); cbn [fst];
      [reflexivity|now rewrite app_nil_r].
Qed.

Lemma scan_fold_fst (parts : list str) :
  forall st,
    fst (fold_left (intcpu.scan_part float_of_str) parts st)
    = fst st ++ filter_map (parsed_value float_of_str) parts.
Proof.
  induction parts as [|part parts IH]; intros [g u]; cbn [fold_left filter_map].
  - cbn [fst]. now rewrite app_nil_r.
  - rewrite IH, scan_part_fst. cbn [fst].
    destruct (parsed_value float_of_str part).
    + now rewrite <- app_assoc.
    + now rewrite app_nil_r.
Qed.

(** The formatter in terms of the values of the entries that parse. *)
Lemma parse_freqs_to_str_values (freqs_raw : str) :
  intcpu.parse_freqs_to_str float_of_str freqs_raw
  = if is_empty freqs_raw then lit "?"
    else if is_empty_list (parsed_values float_of_str freqs_raw) then freqs_raw
    else
      let shown := shown_values float_of_str freqs_raw in
      if Nat.eqb (List.length shown) 1
      then intcpu.trim_float (nth 0 shown zero) ++ lit "GHz"
      else intcpu.trim_float (nth 0 shown zero) ++ [intcpu.en_dash]
             ++ intcpu.trim_float (last shown zero) ++ lit "GHz".
Proof.
  unfold intcpu.parse_freqs_to_str, shown_values, parsed_values.
  destruct (is_empty freqs_raw); [reflexivity|].
  pose proof (scan_fold_fst (split intcpu.semicolon freqs_raw) ([], [])) as H.
  destruct (fold_left _ _ _) as [g u]. simpl in H. subst g.
  destruct (filter_map _ _); reflexivity.
Qed.

End FreqEntries.

(* ================================================================= *)
(** ** The frequency formatter: the set of values and its order *)

Lemma set_add_keeps (s : list float) (x w : float) :
  In w s -> In w (intcpu.set_add s x).
Proof.
  unfold intcpu.set_add. destruct (existsb (feqb x) s); [auto|].
  intros H. apply in_or_app. now left.
Qed.

Lemma set_fold_keeps (l : list float) :
  forall acc w, In w acc -> In w (fold_left intcpu.set_add l acc).
Proof.
  induction l as [|x l IH]; intros acc w H; simpl; [assumption|].
  now apply IH, set_add_keeps.
Qed.



(** No two elements of a list are equal floats. *)
Lemma set_fold_distinct (l : list float) :
  forall acc,
    Forall not_nan (fold_left intcpu.set_add l acc) ->
    NoDup acc /\ (forall x y, In x acc -> In y acc -> x <> y -> feqb x y = false) ->
    NoDup (fold_left intcpu.set_add l acc)
    /\ (forall x y,
           In x (fold_left intcpu.set_add l acc) ->
           In y (fold_left intcpu.set_add l acc) -> x <> y -> feqb x y = false).
Proof.
  induction l as [|x l IH]; intros acc Hnan [Hnd Hd]; simpl in *; [tauto|].
  apply IH; [assumption|].
  rewrite Forall_forall in Hnan.
  assert (Hacc : forall w, In w (intcpu.set_add acc x) -> not_nan w).
  { intros w Hw. now apply Hnan, set_fold_keeps. }
  unfold intcpu.set_add in *. destruct (existsb (feqb x) acc) eqn:E; [tauto|].
  assert (Hx : not_nan x). { apply Hacc, in_or_app. right. now left. }
  assert (Hnew : forall y, In y acc -> feqb x y = false).
  { intros y Hy. destruct (feqb x y) eqn:Exy; [|reflexivity].
    assert (existsb (feqb x) acc = true) by (apply existsb_exists; eauto).
    congruence. }
  split.
  - apply NoDup_app; [assumption|repeat constructor; auto|].
    intros y Hy [<-|[]]. specialize (Hnew _ Hy).
    rewrite (feqb_refl Hx) in Hnew. discriminate.
  - intros a b Ha Hb Hab.
    apply in_app_or in Ha as [Ha|[<-|[]]], Hb as [Hb|[<-|[]]].
    + now apply Hd.
    + rewrite feqb_sym.
      * now apply Hnew.
      * apply Hacc, in_or_app. now left.
      * assumption.
    + now apply Hnew.
    + congruence.
Qed.

Lemma sorted_strictly (s : list float) :
  Forall not_nan s ->
  NoDup s ->
  (forall x y, In x s -> In y s -> x <> y -> feqb x y = false) ->
  StronglySorted (fun a b => fltb b a = false) s ->
  StronglySorted (fun a b => fltb a b = true) s.
Proof.
  intros Hnan Hnd Hd Hs.
  induction Hs as [|x s Hs IH Hx]; constructor.
  - inversion Hnan; inversion Hnd; subst. apply IH; auto.
    intros a b Ha Hb. apply Hd; now right.
  - rewrite Forall_forall in *. intros y Hy.
    inversion Hnd; subst.
    apply fltb_total.
    + apply Hnan. now left.
    + apply Hnan. now right.
    + apply Hd; [now left|now right|]. intros ->. contradiction.
    + now apply Hx.
Qed.

Lemma last_In (A : Type) (l : list A) (d : A) : l <> [] -> In (last l d) l.
Proof.
  induction l as [|x l IH]; [congruence|]. intros _.
  destruct l as [|y l]; [now left|].
  right. apply IH. discriminate.
Qed.

Lemma sorted_last (A : Type) (R : A -> A -> Prop) (l : list A) (d : A) :
  StronglySorted R l ->
  forall v, In v l -> v = last l d \/ R v (last l d).
Proof.
  induction 1 as [|x l Hs IH Hx]; intros v Hv; [contradiction|].
  destruct l as [|y l].
  - destruct Hv as [<-|[]]. now left.
  - change (last (x :: y :: l) d) with (last (y :: l) d).
    destruct Hv as [<-|Hv]; [|now apply IH].
    right. rewrite Forall_forall in Hx. apply Hx, last_In. discriminate.
Qed.

Section ShownValues.
Variable float_of_str : str -> option float.
Variable freqs_raw : str.

Lemma shown_perm :
  Permutation (shown_values float_of_str freqs_raw)
    (intcpu.set_of (List.map round3 (parsed_values float_of_str freqs_raw))).
Proof. apply sorted_perm. Qed.




Lemma shown_ascending :
  Forall not_nan (shown_values float_of_str freqs_raw) ->
  StronglySorted (fun a b => fltb a b = true) (shown_values float_of_str freqs_raw).
Proof.
  intros Hnan.
  assert (Hset : Forall not_nan
                   (intcpu.set_of
                      (List.map round3 (parsed_values float_of_str freqs_raw)))).
  { apply (Permutation_Forall shown_perm Hnan). }
  destruct (@set_fold_distinct
              (List.map round3 (parsed_values float_of_str freqs_raw)) [] Hset)
    as [Hnd Hd].
  { split; [constructor|]. intros x y []. }
  apply sorted_strictly.
  - assumption.
  - apply (Permutation_NoDup (Permutation_sym shown_perm) Hnd).
  - intros x y Hx Hy. apply Hd; now apply (Permutation_in _ shown_perm).
  - apply (sorted_ordered (fun x : float => x) fltb not_nan fltb_asym fltb_ge_trans).
    assumption.
Qed.

End ShownValues.

(* ================================================================= *)
(** ** The frequency formatter: splitting and joining the entries *)

Lemma filter_map_In (A B : Type) (f : A -> option B) (l : list A) (y : B) :
  In y (filter_map f l) <-> exists x, In x l /\ f x = Some y.
Proof.
  induction l as [|x l IH]; simpl.
  - split; [contradiction|]. intros [x [[] _]].
  - destruct (f x) as [z|] eqn:E; simpl; rewrite IH; split.
    + intros [<-|[x' [H1 H2]]]; eauto.
    + intros [x' [[<-|H1] H2]]; [left; congruence|eauto].
    + intros [x' [H1 H2]]. eauto.
    + intros [x' [[<-|H1] H2]]; [congruence|eauto].
Qed.


Lemma split_nonempty (sep : N) (s : str) : split sep s <> [].
Proof.
  destruct s as [|c s]; simpl; [discriminate|].
  destruct (N.eqb c sep); [discriminate|].
  destruct (split sep s); discriminate.
Qed.






Section DropUnparsed.
Variable float_of_str : str -> option float.

Lemma parsed_values_empty_input : parsed_values float_of_str [] = [].
Proof. reflexivity. Qed.


End DropUnparsed.

(* ================================================================= *)
(** ** The frequency formatter: the three outcomes *)

Lemma parsed_values_nonempty_input (float_of_str : str -> option float)
  (freqs_raw : str) :
  parsed_values float_of_str freqs_raw <> [] -> is_empty freqs_raw = false.
Proof. destruct freqs_raw; [intros H; now contradiction H|reflexivity]. Qed.



(** The examples of the specification: one value, and a range. *)
Example parse_freqs_examples :
  intcpu.parse_freqs_to_str intcpu.decimal_float_of_str
    (lit "3.6|http://www.wikidata.org/entity/Q3276763")
  = lit "3.6GHz"
  /\ intcpu.parse_freqs_to_str intcpu.decimal_float_of_str
       (lit "2.7|http://www.wikidata.org/entity/Q3276763;3.9|http://www.wikidata.org/entity/Q3276763")
     = lit "2.7" ++ [intcpu.en_dash] ++ lit "3.9GHz"
  /\ intcpu.parse_freqs_to_str intcpu.decimal_float_of_str
       (lit "+3600|http://www.wikidata.org/entity/Q732707;junk;3.3|x")
     = lit "3.6GHz".
Proof. repeat split; vm_compute; reflexivity. Qed.

Lemma shown_of_no_values (float_of_str : str -> option float) (freqs_raw : str) :
  parsed_values float_of_str freqs_raw = [] ->
  shown_values float_of_str freqs_raw = [].
Proof. unfold shown_values. now intros ->. Qed.

(** C4 (as amended): when the values of the parsed entries, rounded to
    three decimals and taken once each, are two or more and none is NaN,
    the formatter returns the least of them, an en dash, the greatest of
    them and one "GHz" after the greatest; no other value appears. *)
Theorem parse_freqs_range (float_of_str : str -> option float) (freqs_raw : str)
  (Htwo : 2 <= List.length (shown_values float_of_str freqs_raw))
  (Hnan : Forall not_nan (shown_values float_of_str freqs_raw)) :
  exists lo hi,
    In lo (shown_values float_of_str freqs_raw)
    /\ In hi (shown_values float_of_str freqs_raw)
    /\ fltb lo hi = true
    /\ (forall v, In v (shown_values float_of_str freqs_raw) ->
                  (v = lo \/ fltb lo v = true) /\ (v = hi \/ fltb v hi = true))
    /\ intcpu.parse_freqs_to_str float_of_str freqs_raw
       = intcpu.trim_float lo ++ [intcpu.en_dash]
           ++ intcpu.trim_float hi ++ lit "GHz".
Proof.
  assert (Hv : parsed_values float_of_str freqs_raw <> []).
  { intros E. rewrite (shown_of_no_values _ _ E) in Htwo. simpl in Htwo. lia. }
  pose proof (shown_ascending float_of_str freqs_raw Hnan) as Hs.
  rewrite parse_freqs_to_str_values.
  rewrite (parsed_values_nonempty_input _ _ Hv).
  destruct (parsed_values float_of_str freqs_raw) as [|v0 vs]; [congruence|].
  cbn [is_empty_list]. cbv zeta.
  destruct (shown_values float_of_str freqs_raw) as [|lo [|x rest]] eqn:E;
    simpl in Htwo; try lia.
  exists lo, (last (lo :: x :: rest) zero).
  assert (Hin : In (last (lo :: x :: rest) zero) (x :: rest)).
  { change (last (lo :: x :: rest) zero) with (last (x :: rest) zero).
    apply last_In. discriminate. }
  inversion Hs as [|? ? Hs' Hlo]; subst. rewrite Forall_forall in Hlo.
  split; [now left|]. split; [now right|]. split; [now apply Hlo|]. split.
  - intros v Hv'. split.
    + destruct Hv' as [<-|Hv']; [now left|right; now apply Hlo].
    + exact (@sorted_last _ (fun a b => fltb a b = true) _ zero Hs v Hv').
  - reflexivity.
Qed.

(** Two values a gigahertz apart. *)
Lemma parse_freqs_range_witness :
  exists lo hi,
    intcpu.parse_freqs_to_str intcpu.decimal_float_of_str
      (lit "3.9|http://www.wikidata.org/entity/Q3276763;2900|http://www.wikidata.org/entity/Q732707")
    = intcpu.trim_float lo ++ [intcpu.en_dash] ++ intcpu.trim_float hi ++ lit "GHz".
Proof.
  destruct (parse_freqs_range intcpu.decimal_float_of_str
              (lit "3.9|http://www.wikidata.org/entity/Q3276763;2900|http://www.wikidata.org/entity/Q732707"))
    as [lo [hi [_ [_ [_ [_ H]]]]]].
  - vm_compute. lia.
  - vm_compute. repeat constructor.
  - exists lo, hi. exact H.
Defined.

(** C4 as stated fails: two entries parse to the distinct values 2.7001
    and 2.7002 gigahertz, and the formatter returns "2.7GHz", with no en
    dash and one value. *)
Lemma parse_freqs_range_counterexample :
  exists v1 v2,
    parsed_values intcpu.decimal_float_of_str
      (lit "2.7001|http://www.wikidata.org/entity/Q3276763;2.7002|http://www.wikidata.org/entity/Q3276763")
    = [v1; v2]
    /\ feqb v1 v2 = false
    /\ intcpu.parse_freqs_to_str intcpu.decimal_float_of_str
         (lit "2.7001|http://www.wikidata.org/entity/Q3276763;2.7002|http://www.wikidata.org/entity/Q3276763")
       = lit "2.7GHz"
    /\ ~ In intcpu.en_dash
         (intcpu.parse_freqs_to_str intcpu.decimal_float_of_str
            (lit "2.7001|http://www.wikidata.org/entity/Q3276763;2.7002|http://www.wikidata.org/entity/Q3276763")).
Proof.
  eexists. eexists. split; [vm_compute; reflexivity|].
  split; [vm_compute; reflexivity|].
  split; [vm_compute; reflexivity|].
  vm_compute. intros H. repeat (destruct H as [H|H]; [discriminate|]). exact H.
Qed.

(** C5 (as amended): when no entry parses, the formatter returns the
    input string itself if it is not empty, and the one-character string
    "?" if it is empty. *)
Theorem parse_freqs_none_parsed (float_of_str : str -> option float)
  (freqs_raw : str)
  (Hnone : parsed_values float_of_str freqs_raw = []) :
  (freqs_raw <> [] -> intcpu.parse_freqs_to_str float_of_str freqs_raw = freqs_raw)
  /\ (freqs_raw = [] -> intcpu.parse_freqs_to_str float_of_str freqs_raw = lit "?").
Proof.
  rewrite parse_freqs_to_str_values, Hnone. cbn [is_empty_list].
  destruct freqs_raw; split; intros H; try congruence; reflexivity.
Qed.

(** An input of two entries that do not parse comes back as it is. *)
Lemma parse_freqs_none_parsed_witness :
  intcpu.parse_freqs_to_str intcpu.decimal_float_of_str (lit "junk;3.3|x")
  = lit "junk;3.3|x".
Proof.
  apply (parse_freqs_none_parsed intcpu.decimal_float_of_str (lit "junk;3.3|x")).
  - vm_compute. reflexivity.
  - discriminate.
Defined.

(** C5 as stated fails: on the empty input, in which no entry parses,
    the result is not the string "unknown". *)
Lemma parse_freqs_empty_not_unknown :
  parsed_values intcpu.decimal_float_of_str [] = []
  /\ intcpu.parse_freqs_to_str intcpu.decimal_float_of_str [] <> lit "unknown".
Proof. split; [reflexivity|discriminate]. Qed.

(* ================================================================= *)
(** ** Further properties: [chunked] *)

Section Chunked.
Variable A : Type.
Variable xs : list A.
Variable n : nat.
Hypothesis n_positive : 1 <= n.

Lemma range_from_head (fuel start stop step : nat) (i : nat) (l : list nat) :
  intcpu.range_from fuel start stop step = i :: l -> i = start /\ start < stop.
Proof.
  destruct fuel as [|fuel]; simpl; [discriminate|].
  destruct (Nat.ltb_spec start stop); [|discriminate].
  now intros [= <- _].
Qed.

Lemma chunks_from (fuel : nat) :
  forall start,
    List.length xs <= start + fuel ->
    let chunks :=
      List.map (fun i => firstn n (skipn i xs))
        (intcpu.range_from fuel start (List.length xs) n) in
    List.concat chunks = skipn start xs
    /\ Forall (fun c => 1 <= List.length c <= n) chunks
    /\ Forall (fun c => List.length c = n) (removelast chunks).
Proof.
  induction fuel as [|fuel IH]; intros start Hlen; cbn [intcpu.range_from].
  - simpl. rewrite skipn_all2 by lia. repeat split; constructor.
  - destruct (Nat.ltb_spec start (List.length xs)) as [Hlt|Hge].
    + destruct (IH (start + n)) as [Hc [Hl Hr]]; [lia|].
      cbn [List.map List.concat]. rewrite Hc.
      assert (Hlen1 : List.length (firstn n (skipn start xs))
                      = Nat.min n (List.length xs - start)).
      { now rewrite length_firstn, length_skipn. }
      split; [|split].
      * rewrite (Nat.add_comm start n), <- skipn_skipn. apply firstn_skipn.
      * constructor; [lia|exact Hl].
      * destruct (intcpu.range_from fuel (start + n) (List.length xs) n) as [|i l] eqn:E.
        -- constructor.
        -- apply range_from_head in E as [-> Hi].
           change (removelast (?c :: List.map ?f (?i :: ?l)))
             with (c :: removelast (List.map f (i :: l))).
           constructor; [lia|exact Hr].
    + simpl. rewrite skipn_all2 by lia. repeat split; constructor.
Qed.

End Chunked.

(** X1: for a positive chunk size [chunked] returns chunks whose
    concatenation is the input list, each with at least one and at most
    [n] elements, and each but the last with exactly [n]. *)
Theorem chunked_pieces (A : Type) (xs : list A) (n : Z) (Hn : (0 < n)%Z) :
  exists chunks,
    intcpu.chunked xs n = Ok chunks
    /\ List.concat chunks = xs
    /\ Forall (fun c => 1 <= List.length c /\ (Z.of_nat (List.length c) <= n)%Z) chunks
    /\ Forall (fun c => Z.of_nat (List.length c) = n) (removelast chunks).
Proof.
  unfold intcpu.chunked.
  destruct (Z.eqb_spec n 0); [lia|]. destruct (Z.ltb_spec n 0); [lia|].
  eexists. split; [reflexivity|].
  destruct (@chunks_from A xs (Z.to_nat n) ltac:(lia) (List.length xs) 0 ltac:(lia))
    as [Hc [Hl Hr]].
  split; [exact Hc|]. split.
  - eapply Forall_impl; [|exact Hl]. simpl. intros c Hc'. lia.
  - eapply Forall_impl; [|exact Hr]. simpl. intros c Hc'. lia.
Qed.

(** Five names in chunks of two. *)
Lemma chunked_pieces_witness :
  exists chunks,
    intcpu.chunked [lit "Q1"; lit "Q2"; lit "Q3"; lit "Q4"; lit "Q5"] 2 = Ok chunks
    /\ List.concat chunks = [lit "Q1"; lit "Q2"; lit "Q3"; lit "Q4"; lit "Q5"].
Proof.
  destruct (chunked_pieces [lit "Q1"; lit "Q2"; lit "Q3"; lit "Q4"; lit "Q5"]
              (n := 2) eq_refl) as [chunks [H1 [H2 _]]].
  exists chunks. split; assumption.
Defined.

(* ================================================================= *)
(** ** Further properties: stripping and the name list *)

Lemma dropwhile_split (p : N -> bool) (s : str) :
  exists w, s = w ++ dropwhile p s.
Proof.
  induction s as [|c s [w IH]]; simpl; [now exists []|].
  destruct (p c); [|now exists []].
  exists (c :: w). simpl. now rewrite <- IH.
Qed.

Lemma dropwhile_idem (p : N -> bool) (s : str) :
  dropwhile p (dropwhile p s) = dropwhile p s.
Proof.
  induction s as [|c s IH]; simpl; [reflexivity|].
  destruct (p c) eqn:E; [exact IH|]. simpl. now rewrite E.
Qed.

(** Stripping twice is stripping once. *)
Lemma strip_idem (s : str) : strip (strip s) = strip s.
Proof.
  unfold strip at 1. unfold strip, rstrip, lstrip.
  set (t := dropwhile isspace s).
  set (u := dropwhile isspace (rev t)).
  assert (Hl : dropwhile isspace (rev u) = rev u).
  { destruct (rev u) as [|c r] eqn:E; [reflexivity|].
    destruct (dropwhile_split isspace (rev t)) as [w Hw]. fold u in Hw.
    apply (f_equal (@rev N)) in Hw. rewrite rev_involutive, rev_app_distr, E in Hw.
    simpl in Hw. unfold t in Hw. apply dropwhile_head in Hw.
    simpl. now rewrite Hw. }
  rewrite Hl, rev_involutive. unfold u. now rewrite dropwhile_idem.
Qed.

Lemma read_cpu_list_fold (lines : list str) :
  forall names,
    fold_left
      (fun names line =>
         let s := strip line in
         if negb (is_empty s) && negb (startswith s (lit "#"))
         then names ++ [s]
         else names)
      lines names
    = names ++ filter_map cpu_name_of_line lines.
Proof.
  induction lines as [|line lines IH]; intros names; cbn [fold_left filter_map].
  - now rewrite app_nil_r.
  - rewrite IH. unfold cpu_name_of_line at 2. cbv zeta.
    destruct (negb (is_empty (strip line)) && negb (startswith (strip line) (lit "#")));
      [now rewrite <- app_assoc|reflexivity].
Qed.

Lemma read_cpu_list_text_lines (text : str) :
  intcpu.read_cpu_list_text text = filter_map cpu_name_of_line (splitlines text).
Proof. unfold intcpu.read_cpu_list_text. now rewrite read_cpu_list_fold. Qed.

Lemma cpu_names_of_lines (lines : list str) :
  filter_map cpu_name_of_line lines
  = List.map strip
      (filter (fun line => match strip line with
                           | [] => false
                           | c :: _ => negb (N.eqb c 35)
                           end)
              lines).
Proof.
  induction lines as [|line lines IH]; cbn [filter_map filter List.map];
    [reflexivity|].
  unfold cpu_name_of_line at 1. cbv zeta.
  destruct (strip line) as [|c r] eqn:E; cbn [is_empty negb andb]; [exact IH|].
  assert (Hs : startswith (c :: r) (lit "#") = N.eqb c 35).
  { change (lit "#") with [35%N]. cbn [startswith]. rewrite (N.eqb_sym 35 c).
    destruct r; apply andb_true_r. }
  rewrite Hs.
  destruct (N.eqb c 35); cbn [negb]; [exact IH|].
  cbn [List.map]. now rewrite E, IH.
Qed.

(** X3: the names [read_cpu_list] returns are, in the order of the file
    and as often as they occur, the stripped forms of the lines of which
    something is left after stripping that does not begin with the
    number sign U+0023; so a name is returned exactly when it is the
    stripped form of such a line, and no name is empty, starts with the
    number sign or has white space at either end. A missing file gives
    no list. *)
Theorem read_cpu_list_names (path : PyPath.path) (fs : filesystem) :
  (read_text path fs = None -> intcpu.read_cpu_list path fs = None)
  /\ (forall text,
         read_text path fs = Some text ->
         exists names,
           intcpu.read_cpu_list path fs = Some names
           /\ names
              = List.map strip
                  (filter (fun line => match strip line with
                                       | [] => false
                                       | c :: _ => negb (N.eqb c 35)
                                       end)
                          (splitlines text))
           /\ (forall name,
                  In name names <->
                  exists line,
                    In line (splitlines text) /\ name = strip line
                    /\ name <> [] /\ startswith name (lit "#") = false)
           /\ Forall (fun name => strip name = name) names).
Proof.
  unfold intcpu.read_cpu_list. split; [now intros ->|].
  intros text ->. eexists. split; [reflexivity|].
  split; [rewrite read_cpu_list_text_lines; apply cpu_names_of_lines|].
  rewrite read_cpu_list_text_lines.
  assert (Hspec : forall name,
             In name (filter_map cpu_name_of_line (splitlines text)) <->
             exists line,
               In line (splitlines text) /\ name = strip line
               /\ name <> [] /\ startswith name (lit "#") = false).
  { intros name. rewrite filter_map_In. unfold cpu_name_of_line. cbv zeta. split.
    - intros [line [Hl H]]. exists line.
      destruct (is_empty (strip line)) eqn:E1; [discriminate|].
      destruct (startswith (strip line) (lit "#")) eqn:E2; [discriminate|].
      injection H as <-. repeat split; auto. intros E. now rewrite E in E1.
    - intros [line [Hl [-> [Hne Hs]]]]. exists line. split; [assumption|].
      rewrite Hs. destruct (strip line); [congruence|reflexivity]. }
  split; [exact Hspec|].
  apply Forall_forall. intros name Hn.
  apply Hspec in Hn as [line [_ [-> _]]]. apply strip_idem.
Qed.

Lemma splitlines_plain (p : str) :
  p <> [] -> forallb (fun c => negb (is_linebreak c)) p = true ->
  splitlines p = [p].
Proof.
  induction p as [|c p IH]; [congruence|]. intros _ H.
  cbn [forallb] in H. apply andb_true_iff in H as [Hc Hp].
  cbn [splitlines]. apply negb_true_iff in Hc. rewrite Hc.
  destruct p as [|d p]; [reflexivity|].
  rewrite IH; [reflexivity|discriminate|assumption].
Qed.

Lemma splitlines_line (p rest : str) :
  forallb (fun c => negb (is_linebreak c)) p = true ->
  splitlines (p ++ newline :: rest) = p :: splitlines rest.
Proof.
  induction p as [|c p IH]; intros H.
  - cbn [app splitlines]. change (is_linebreak newline) with true. cbv iota.
    destruct rest; reflexivity.
  - cbn [forallb] in H. apply andb_true_iff in H as [Hc Hp].
    cbn [app splitlines]. apply negb_true_iff in Hc. rewrite Hc.
    now rewrite IH.
Qed.

Lemma splitlines_join (names : list str) :
  Forall (fun p => p <> []
                   /\ forallb (fun c => negb (is_linebreak c)) p = true) names ->
  splitlines (join [newline] names) = names.
Proof.
  induction 1 as [|p names [Hp Hb] Hrest IH]; [reflexivity|].
  destruct names as [|q names].
  - now apply splitlines_plain.
  - change (join [newline] (p :: q :: names))
      with (p ++ newline :: join [newline] (q :: names)).
    rewrite splitlines_line by assumption. now rewrite IH.
Qed.

Lemma cpu_name_of_plain (p : str) :
  plain_cpu_name p -> cpu_name_of_line p = Some p.
Proof.
  intros [Hne [Hs [Hh _]]]. unfold cpu_name_of_line. cbv zeta.
  rewrite Hs, Hh. destruct p; [congruence|reflexivity].
Qed.

(** X4: a list of plain names (not empty, stripped, no number sign in
    front, no line boundary inside) written one per line, with or
    without a line feed after the last one, is read back by
    [read_cpu_list] as it was. *)
Theorem read_cpu_list_round_trip (names : list str) (path : PyPath.path)
  (fs : filesystem) (Hplain : Forall plain_cpu_name names) :
  intcpu.read_cpu_list path (write_text path (join [newline] names) fs)
  = Some names
  /\ intcpu.read_cpu_list path
       (write_text path (flat_map (fun l => l ++ [newline]) names) fs)
     = Some names.
Proof.
  assert (Hkeep : filter_map cpu_name_of_line names = names).
  { induction Hplain as [|p l Hp _ IH]; [reflexivity|].
    cbn [filter_map]. now rewrite (cpu_name_of_plain Hp), IH. }
  assert (Hlines : Forall (fun p => p <> []
                     /\ forallb (fun c => negb (is_linebreak c)) p = true) names).
  { eapply Forall_impl; [|exact Hplain]. intros p [H1 [_ [_ H4]]]. auto. }
  unfold intcpu.read_cpu_list. rewrite !read_after_write.
  rewrite !read_cpu_list_text_lines. split.
  - rewrite splitlines_join by exact Hlines. now rewrite Hkeep.
  - replace (splitlines (flat_map (fun l => l ++ [newline]) names)) with names;
      [now rewrite Hkeep|].
    clear Hkeep Hplain. induction Hlines as [|p l [Hne Hb] _ IH]; [reflexivity|].
    cbn [flat_map]. rewrite <- app_assoc. cbn [app].
    rewrite splitlines_line by assumption. now rewrite <- IH.
Qed.

Lemma read_cpu_list_round_trip_witness :
  intcpu.read_cpu_list [lit "cpus"; lit "INTEL_CPU_LIST.txt"]
    (write_text [lit "cpus"; lit "INTEL_CPU_LIST.txt"]
       (join [newline] [lit "Core i7-4770K"; lit "Pentium 4"])
       (Build_filesystem [] []))
  = Some [lit "Core i7-4770K"; lit "Pentium 4"].
Proof.
  apply (read_cpu_list_round_trip (names := [lit "Core i7-4770K"; lit "Pentium 4"])).
  repeat constructor; discriminate.
Defined.

(* ================================================================= *)
(** ** Further properties: the GPU rows *)

(** X5: in a row built from a specification the name and the memory
    type have no white space at either end, and the row is built exactly
    when the capacity formatter returns: the normaliser raises what the
    formatter raises. *)
Theorem row_from_spec_stripped (spec : dbgpu.GPUSpecification) :
  (forall r, am_atgpu._row_from_spec spec = Ok r ->
             strip (am_atgpu.name r) = am_atgpu.name r
             /\ strip (am_atgpu.memory_type r) = am_atgpu.memory_type r
             /\ am_atgpu._format_memory_capacity (dbgpu.memory_size_gb spec)
                = Ok (am_atgpu.memory_capacity r))
  /\ (forall r, nvgpu._row_from_spec spec = Ok r ->
                strip (nvgpu.name r) = nvgpu.name r
                /\ strip (nvgpu.memory_type r) = nvgpu.memory_type r
                /\ nvgpu._format_memory_capacity (dbgpu.memory_size_gb spec)
                   = Ok (nvgpu.memory_capacity r))
  /\ (forall e, am_atgpu._row_from_spec spec = Raise e <->
                am_atgpu._format_memory_capacity (dbgpu.memory_size_gb spec) = Raise e)
  /\ (forall e, nvgpu._row_from_spec spec = Raise e <->
                nvgpu._format_memory_capacity (dbgpu.memory_size_gb spec) = Raise e).
Proof.
  split; [|split; [|split]].
  - unfold am_atgpu._row_from_spec.
    destruct (am_atgpu._format_memory_capacity (dbgpu.memory_size_gb spec)) as [cap|e0];
      cbn [bind]; [|discriminate].
    intros r [= <-]. cbn. split; [apply strip_idem|]. split; [apply strip_idem|reflexivity].
  - unfold nvgpu._row_from_spec.
    destruct (nvgpu._format_memory_capacity (dbgpu.memory_size_gb spec)) as [cap|e0];
      cbn [bind]; [|discriminate].
    intros r [= <-]. cbn. split; [apply strip_idem|]. split; [apply strip_idem|reflexivity].
  - intros e. unfold am_atgpu._row_from_spec.
    destruct (am_atgpu._format_memory_capacity (dbgpu.memory_size_gb spec)) as [cap|e0];
      cbn [bind]; split; intros H; try discriminate; now injection H as ->.
  - intros e. unfold nvgpu._row_from_spec.
    destruct (nvgpu._format_memory_capacity (dbgpu.memory_size_gb spec)) as [cap|e0];
      cbn [bind]; split; intros H; try discriminate; now injection H as ->.
Qed.

Section IterRows.
Variable casefold_char : N -> str.

Lemma am_atgpu_iter_app (a b : list dbgpu.GPUSpecification) :
  am_atgpu.iter_amd_ati_gpu_rows casefold_char (a ++ b)
  = (ra <- am_atgpu.iter_amd_ati_gpu_rows casefold_char a ;;
     rb <- am_atgpu.iter_amd_ati_gpu_rows casefold_char b ;;
     Ok (ra ++ rb)).
Proof.
  induction a as [|spec a IH]; cbn [app am_atgpu.iter_amd_ati_gpu_rows].
  - cbn [bind]. now destruct (am_atgpu.iter_amd_ati_gpu_rows casefold_char b).
  - destruct (negb _); [exact IH|].
    destruct (am_atgpu._row_from_spec spec) as [row|e]; cbn [bind]; [|reflexivity].
    destruct (is_empty (am_atgpu.name row)); [exact IH|].
    destruct (am_atgpu._is_console_gpu_name casefold_char (am_atgpu.name row));
      [exact IH|].
    rewrite IH.
    destruct (am_atgpu.iter_amd_ati_gpu_rows casefold_char a); cbn [bind];
      [|reflexivity].
    now destruct (am_atgpu.iter_amd_ati_gpu_rows casefold_char b).
Qed.

Lemma nvgpu_iter_app (a b : list dbgpu.GPUSpecification) :
  nvgpu.iter_nvidia_gpu_rows casefold_char (a ++ b)
  = (ra <- nvgpu.iter_nvidia_gpu_rows casefold_char a ;;
     rb <- nvgpu.iter_nvidia_gpu_rows casefold_char b ;;
     Ok (ra ++ rb)).
Proof.
  induction a as [|spec a IH]; cbn [app nvgpu.iter_nvidia_gpu_rows].
  - cbn [bind]. now destruct (nvgpu.iter_nvidia_gpu_rows casefold_char b).
  - destruct (negb _); [exact IH|].
    destruct (nvgpu._row_from_spec spec) as [row|e]; cbn [bind]; [|reflexivity].
    destruct (is_empty (nvgpu.name row)); [exact IH|].
    destruct (nvgpu._is_console_gpu_name casefold_char (nvgpu.name row));
      [exact IH|].
    rewrite IH.
    destruct (nvgpu.iter_nvidia_gpu_rows casefold_char a); cbn [bind];
      [|reflexivity].
    now destruct (nvgpu.iter_nvidia_gpu_rows casefold_char b).
Qed.

Lemma am_atgpu_iter_wanted (specs : list dbgpu.GPUSpecification) :
  am_atgpu.iter_amd_ati_gpu_rows casefold_char (filter am_atgpu_wanted specs)
  = am_atgpu.iter_amd_ati_gpu_rows casefold_char specs.
Proof.
  induction specs as [|spec specs IH]; [reflexivity|].
  cbn [filter]. unfold am_atgpu_wanted at 1.
  destruct (existsb _ _) eqn:E; cbn [am_atgpu.iter_amd_ati_gpu_rows];
    rewrite E; cbn [negb]; rewrite IH; reflexivity.
Qed.

Lemma nvgpu_iter_wanted (specs : list dbgpu.GPUSpecification) :
  nvgpu.iter_nvidia_gpu_rows casefold_char (filter nvgpu_wanted specs)
  = nvgpu.iter_nvidia_gpu_rows casefold_char specs.
Proof.
  induction specs as [|spec specs IH]; [reflexivity|].
  cbn [filter]. unfold nvgpu_wanted at 1.
  destruct (str_eqb _ _) eqn:E; cbn [nvgpu.iter_nvidia_gpu_rows];
    rewrite E; cbn [negb]; rewrite IH; reflexivity.
Qed.

End IterRows.

(** X6: the rows of a database in two parts are the rows of the first
    part followed by the rows of the second, and an exception in either
    part is the exception of the whole, the first part's first. *)
Theorem iter_rows_append (casefold_char : N -> str)
  (a b : list dbgpu.GPUSpecification) :
  am_atgpu.iter_amd_ati_gpu_rows casefold_char (a ++ b)
  = (ra <- am_atgpu.iter_amd_ati_gpu_rows casefold_char a ;;
     rb <- am_atgpu.iter_amd_ati_gpu_rows casefold_char b ;;
     Ok (ra ++ rb))
  /\ nvgpu.iter_nvidia_gpu_rows casefold_char (a ++ b)
     = (ra <- nvgpu.iter_nvidia_gpu_rows casefold_char a ;;
        rb <- nvgpu.iter_nvidia_gpu_rows casefold_char b ;;
        Ok (ra ++ rb)).
Proof. split; [apply am_atgpu_iter_app|apply nvgpu_iter_app]. Qed.

(** X7: the records of other manufacturers have no effect on an
    exporter's rows, not even the records on which the normaliser would
    raise: dropping them from the database changes neither the rows nor
    the exception. The AMD/ATI exporter wants the manufacturers "AMD"
    and "ATI", the NVIDIA exporter "NVIDIA", compared exactly. *)
Theorem iter_rows_other_manufacturers (casefold_char : N -> str)
  (specs : list dbgpu.GPUSpecification) :
  am_atgpu.iter_amd_ati_gpu_rows casefold_char
    (filter (fun spec => existsb (str_eqb (dbgpu.manufacturer spec))
                           [lit "AMD"; lit "ATI"]) specs)
  = am_atgpu.iter_amd_ati_gpu_rows casefold_char specs
  /\ nvgpu.iter_nvidia_gpu_rows casefold_char
       (filter (fun spec => str_eqb (dbgpu.manufacturer spec) (lit "NVIDIA")) specs)
     = nvgpu.iter_nvidia_gpu_rows casefold_char specs.
Proof. split; [apply am_atgpu_iter_wanted|apply nvgpu_iter_wanted]. Qed.

(* ================================================================= *)
(** ** Further properties: sorting again, rows seen before *)

Lemma sorted_of_ordered (A K : Type) (key : A -> K) (ltb : K -> K -> bool)
  (l : list A) :
  StronglySorted (key_order key ltb) l -> sorted key ltb l = l.
Proof.
  induction 1 as [|x l Hs IH Hx]; [reflexivity|].
  cbn [sorted]. rewrite IH. destruct l as [|y l]; [reflexivity|].
  cbn [insert_sorted]. inversion Hx as [|? ? Hy _]; subst.
  unfold key_order in Hy. now rewrite Hy.
Qed.

Section FirstOccurrencesMore.
Variable A : Type.
Variable eqb : A -> A -> bool.
Hypothesis eqb_eq : forall a b, eqb a b = true <-> a = b.

Lemma first_occurrences_from_seen (l : list A) :
  forall seen, (forall x, In x l -> In x seen) ->
               first_occurrences_from eqb seen l = [].
Proof.
  induction l as [|x l IH]; intros seen H; [reflexivity|].
  cbn [first_occurrences_from].
  rewrite (proj2 (existsb_eqb_In eqb eqb_eq x seen)) by (apply H; now left).
  apply IH. intros y Hy. apply H. now right.
Qed.

Lemma first_occurrences_from_app (l1 l2 : list A) :
  forall seen,
    first_occurrences_from eqb seen (l1 ++ l2)
    = first_occurrences_from eqb seen l1
        ++ first_occurrences_from eqb (seen ++ first_occurrences_from eqb seen l1) l2.
Proof.
  induction l1 as [|x l1 IH]; intros seen; cbn [app first_occurrences_from].
  - now rewrite app_nil_r.
  - destruct (existsb (eqb x) seen); [apply IH|].
    rewrite IH. cbn [app]. now rewrite <- app_assoc.
Qed.

Lemma first_occurrences_NoDup (l : list A) :
  NoDup l -> forall seen, (forall x, In x l -> ~ In x seen) ->
                          first_occurrences_from eqb seen l = l.
Proof.
  induction 1 as [|x l Hx Hnd IH]; intros seen H; [reflexivity|].
  cbn [first_occurrences_from].
  destruct (existsb (eqb x) seen) eqn:E.
  - apply (existsb_eqb_In eqb eqb_eq) in E. exfalso. apply (H x); [now left|assumption].
  - f_equal. apply IH. intros y Hy Hin. apply in_app_or in Hin as [Hin|[<-|[]]].
    + apply (H y); [now right|assumption].
    + contradiction.
Qed.

End FirstOccurrencesMore.

Section DeduplicatorMore.
Variable A : Type.
Variable row_key : A -> str * str * str.
Variable sort_key : A -> str * str * str.
Hypothesis row_key_inj : forall a b, row_key a = row_key b -> a = b.

Lemma build_first_occurrences (rows : list A) :
  build_rows row_key sort_key rows
  = sorted sort_key tuple3_ltb (first_occurrences (same_row row_key) rows).
Proof.
  unfold build_rows. rewrite (setdefault_values sort_key) by constructor.
  reflexivity.
Qed.

Lemma build_idempotent (rows : list A) :
  build_rows row_key sort_key (build_rows row_key sort_key rows)
  = build_rows row_key sort_key rows.
Proof.
  rewrite (build_first_occurrences (build_rows row_key sort_key rows)).
  destruct (@dedup_sort_spec A row_key sort_key row_key_inj rows) as [Hnd _].
  fold (build_rows row_key sort_key rows) in Hnd.
  unfold first_occurrences.
  rewrite (first_occurrences_NoDup (same_row row_key)
             (same_row_eq row_key row_key_inj) Hnd) by (intros x _ []).
  apply sorted_of_ordered.
  rewrite build_first_occurrences.
  apply sorted_ordered with (P := fun _ => True).
  - intros a b _ _. apply tuple3_ltb_asym.
  - intros a b c _ _ _. apply tuple3_geb_trans.
  - apply Forall_forall. auto.
Qed.

Lemma build_absorbs (rows again : list A) :
  (forall r, In r again -> In r rows) ->
  build_rows row_key sort_key (rows ++ again) = build_rows row_key sort_key rows.
Proof.
  intros H. rewrite !build_first_occurrences. f_equal.
  unfold first_occurrences.
  rewrite (first_occurrences_from_app (same_row row_key)).
  rewrite (first_occurrences_from_seen (same_row row_key)
             (same_row_eq row_key row_key_inj) again); [now rewrite app_nil_r|].
  intros x Hx. cbn [app].
  apply (first_occurrences_from_In (same_row row_key)
           (same_row_eq row_key row_key_inj)).
  split; [now apply H|]. intros [].
Qed.

End DeduplicatorMore.

(** X8: [build_unique_sorted_rows] applied to its own result returns it
    unchanged, in both GPU exporters and for every lower-casing
    function. *)
Theorem build_unique_sorted_rows_idempotent (lower : str -> str) :
  (forall rows,
      am_atgpu.build_unique_sorted_rows lower
        (am_atgpu.build_unique_sorted_rows lower rows)
      = am_atgpu.build_unique_sorted_rows lower rows)
  /\ (forall rows,
      nvgpu.build_unique_sorted_rows lower
        (nvgpu.build_unique_sorted_rows lower rows)
      = nvgpu.build_unique_sorted_rows lower rows).
Proof.
  split; intros rows.
  - apply (@build_idempotent _ am_atgpu.row_key (am_atgpu.sort_key lower)
             am_atgpu_row_key_inj).
  - apply (@build_idempotent _ nvgpu.row_key (nvgpu.sort_key lower)
             nvgpu_row_key_inj).
Qed.

(** X9: rows that follow rows equal to them add nothing: when every row
    of [again] occurs in [rows], the result for [rows ++ again] is the
    result for [rows], order included. *)
Theorem build_unique_sorted_rows_absorbs (lower : str -> str) :
  (forall rows again : list am_atgpu.AmdAtiGpuRow,
      (forall r, In r again -> In r rows) ->
      am_atgpu.build_unique_sorted_rows lower (rows ++ again)
      = am_atgpu.build_unique_sorted_rows lower rows)
  /\ (forall rows again : list nvgpu.NvidiaGpuRow,
      (forall r, In r again -> In r rows) ->
      nvgpu.build_unique_sorted_rows lower (rows ++ again)
      = nvgpu.build_unique_sorted_rows lower rows).
Proof.
  split; intros rows again H.
  - apply (@build_absorbs _ am_atgpu.row_key (am_atgpu.sort_key lower)
             am_atgpu_row_key_inj); assumption.
  - apply (@build_absorbs _ nvgpu.row_key (nvgpu.sort_key lower)
             nvgpu_row_key_inj); assumption.
Qed.

(* ================================================================= *)
(** ** Further properties: the console filter, the capacity formatter *)

Lemma occurs_in_wider (m s pre suf : str) :
  occurs_in m s -> occurs_in m (pre ++ s ++ suf).
Proof.
  intros [a [b ->]]. exists (pre ++ a), (b ++ suf).
  now rewrite <- !app_assoc.
Qed.

(** X10: a name that holds a console name is a console name: text put
    before or after a name that a filter excludes does not bring it
    back. This holds for every case-folding table. *)
Theorem console_name_wider (casefold_char : N -> str) (pre name suf : str) :
  (am_atgpu._is_console_gpu_name casefold_char name = true ->
   am_atgpu._is_console_gpu_name casefold_char (pre ++ name ++ suf) = true)
  /\ (nvgpu._is_console_gpu_name casefold_char name = true ->
      nvgpu._is_console_gpu_name casefold_char (pre ++ name ++ suf) = true).
Proof.
  unfold am_atgpu._is_console_gpu_name, nvgpu._is_console_gpu_name.
  rewrite !existsb_exists. split; intros [m [Hm H]]; exists m;
    (split; [assumption|]); apply str_in_spec; apply str_in_spec in H;
    rewrite !casefold_app; now apply occurs_in_wider.
Qed.

(** X11: the two exporters' filters differ by one marker each: a name
    whose case-folded form holds neither "xenos" nor "tegra" gets the
    same answer from both; "xenos" alone is a console name for the
    AMD/ATI exporter only, and "tegra" alone for the NVIDIA exporter
    only. *)
Theorem console_filters_differ (casefold_char : N -> str) (name : str) :
  (str_in (lit "xenos") (casefold casefold_char name) = false ->
   str_in (lit "tegra") (casefold casefold_char name) = false ->
   am_atgpu._is_console_gpu_name casefold_char name
   = nvgpu._is_console_gpu_name casefold_char name)
  /\ (str_in (lit "xenos") (casefold casefold_char name) = true ->
      am_atgpu._is_console_gpu_name casefold_char name = true)
  /\ (str_in (lit "tegra") (casefold casefold_char name) = true ->
      nvgpu._is_console_gpu_name casefold_char name = true)
  /\ (am_atgpu._is_console_gpu_name casefold_char name = true ->
      nvgpu._is_console_gpu_name casefold_char name = false ->
      str_in (lit "xenos") (casefold casefold_char name) = true)
  /\ (nvgpu._is_console_gpu_name casefold_char name = true ->
      am_atgpu._is_console_gpu_name casefold_char name = false ->
      str_in (lit "tegra") (casefold casefold_char name) = true).
Proof.
  unfold am_atgpu._is_console_gpu_name, nvgpu._is_console_gpu_name.
  cbv zeta. set (n := casefold casefold_char name).
  cbn [existsb am_atgpu.console_markers nvgpu.console_markers].
  destruct (str_in (lit "playstation") n), (str_in (lit "psx") n),
    (str_in (lit "xbox") n), (str_in (lit "switch") n),
    (str_in (lit "nintendo") n), (str_in (lit "xenos") n),
    (str_in (lit "tegra") n); cbn; repeat split; congruence.
Qed.

(* ================================================================= *)
(** ** Further properties: digits and trimmed decimals *)

Lemma nilempty_digits (d : Decimal.uint) :
  Forall (fun c => is_digit c = true) (lit (NilEmpty.string_of_uint d)).
Proof. induction d; cbn; constructor; auto. Qed.

Lemma nilzero_digits (d : Decimal.uint) :
  Forall (fun c => is_digit c = true) (lit (NilZero.string_of_uint d))
  /\ lit (NilZero.string_of_uint d) <> [].
Proof.
  destruct d; try (split; [apply nilempty_digits|discriminate]).
  split; [repeat constructor|discriminate].
Qed.

Lemma str_of_int_digits (z : Z) :
  (0 <= z)%Z ->
  Forall (fun c => is_digit c = true) (str_of_int z) /\ str_of_int z <> [].
Proof.
  intros Hz. unfold str_of_int.
  destruct z as [|p|p]; try lia; cbn [Z.to_int NilZero.string_of_int];
    apply nilzero_digits.
Qed.

(** The text of an [int] ends with a digit. *)
Lemma str_of_int_last (z : Z) :
  exists pre c, str_of_int z = pre ++ [c] /\ is_digit c = true.
Proof.
  assert (H : forall d, exists pre c,
               lit (NilZero.string_of_uint d) = pre ++ [c] /\ is_digit c = true).
  { intros d. destruct (nilzero_digits d) as [Hd Hne].
    destruct (exists_last Hne) as [pre [c E]]. exists pre, c.
    split; [exact E|]. rewrite E in Hd. apply Forall_app in Hd as [_ Hd].
    now inversion Hd. }
  unfold str_of_int. destruct z as [|p|p]; cbn [Z.to_int NilZero.string_of_int].
  - apply H.
  - apply H.
  - destruct (H (Pos.to_uint p)) as [pre [c [E Hc]]].
    exists (45%N :: pre), c. split; [|exact Hc].
    change (lit (String "-" (NilZero.string_of_uint (Pos.to_uint p))))
      with (45%N :: lit (NilZero.string_of_uint (Pos.to_uint p))).
    now rewrite E.
Qed.

Lemma digits3_digits (n : Z) :
  (0 <= n < 1000)%Z -> Forall (fun c => is_digit c = true) (digits3 n).
Proof.
  intros Hn. unfold digits3, is_digit.
  assert (H1 : (0 <= n / 100 <= 9)%Z) by (Z.div_mod_to_equations; lia).
  assert (H2 : (0 <= (n / 10) mod 10 <= 9)%Z) by (Z.div_mod_to_equations; lia).
  assert (H3 : (0 <= n mod 10 <= 9)%Z) by (Z.div_mod_to_equations; lia).
  repeat constructor; apply andb_true_iff; split; apply N.leb_le; lia.
Qed.

Lemma dropwhile_app_stop (p : N -> bool) (x y : str) (c : N) :
  p c = false -> dropwhile p (x ++ c :: y) = dropwhile p x ++ c :: y.
Proof.
  intros Hc. induction x as [|d x IH]; cbn [app dropwhile].
  - now rewrite Hc.
  - destruct (p d); [exact IH|reflexivity].
Qed.

(** Stripping characters from the right end stops at a character that
    is not among them. *)
Lemma rstrip_chars_stop (chars a b : str) (c : N) :
  existsb (N.eqb c) chars = false ->
  rstrip_chars chars (a ++ c :: b) = a ++ c :: rstrip_chars chars b.
Proof.
  intros Hc. unfold rstrip_chars.
  rewrite rev_app_distr. cbn [rev]. rewrite <- app_assoc. cbn [app].
  rewrite dropwhile_app_stop by exact Hc.
  rewrite rev_app_distr. cbn [rev]. rewrite rev_involutive, <- app_assoc.
  reflexivity.
Qed.

Lemma rstrip_chars_prefix (chars s : str) :
  exists w, s = rstrip_chars chars s ++ w.
Proof.
  unfold rstrip_chars.
  destruct (dropwhile_split (fun c => existsb (N.eqb c) chars) (rev s)) as [w Hw].
  exists (rev w). rewrite <- rev_app_distr, <- Hw. now rewrite rev_involutive.
Qed.

Lemma rstrip_chars_last (chars s t : str) (c : N) :
  rstrip_chars chars s = t ++ [c] -> existsb (N.eqb c) chars = false.
Proof.
  unfold rstrip_chars. intros H.
  apply (f_equal (@rev N)) in H. rewrite rev_involutive, rev_app_distr in H.
  cbn in H. now apply dropwhile_head in H.
Qed.

Lemma rstrip_chars_Forall (P : N -> Prop) (chars s : str) :
  Forall P s -> Forall P (rstrip_chars chars s).
Proof.
  intros H. destruct (rstrip_chars_prefix chars s) as [w Hw].
  rewrite Hw in H. now apply Forall_app in H as [H _].
Qed.

Lemma digit_not_point (c : N) : is_digit c = true -> existsb (N.eqb c) (lit ".") = false.
Proof.
  unfold is_digit. intros H. apply andb_true_iff in H as [H _].
  apply N.leb_le in H. cbn. destruct (N.eqb_spec c 46); [lia|reflexivity].
Qed.

(** The two [rstrip] calls of the formatters on a text that ends with a
    digit, a point and digits. *)
Lemma trimmed_decimals (pre : str) (c : N) (digits : str) :
  is_digit c = true ->
  Forall (fun d => is_digit d = true) digits ->
  rstrip_chars (lit ".") (rstrip_chars (lit "0") (pre ++ [c] ++ lit "." ++ digits))
  = pre ++ [c] ++ kept_decimals digits.
Proof.
  intros Hc Hd. unfold kept_decimals.
  change (pre ++ [c] ++ lit "." ++ digits) with (pre ++ [c] ++ 46%N :: digits).
  rewrite app_assoc, (rstrip_chars_stop (lit "0")) by reflexivity.
  pose proof (rstrip_chars_Forall (lit "0") Hd) as Hds.
  destruct (rstrip_chars (lit "0") digits) as [|d ds] eqn:E.
  - rewrite <- app_assoc. cbn [app].
    rewrite (rstrip_chars_stop (lit ".")) by now apply digit_not_point.
    reflexivity.
  - destruct (@exists_last _ (d :: ds)) as [ds' [d' E']]; [discriminate|].
    rewrite E' in *. apply Forall_app in Hds as [_ Hd'].
    inversion Hd' as [|? ? Hd'' _]; subst.
    replace ((pre ++ [c]) ++ 46%N :: ds' ++ [d'])
      with (((pre ++ [c]) ++ 46%N :: ds') ++ d' :: [])
      by (now rewrite <- !app_assoc).
    rewrite (rstrip_chars_stop (lit ".")) by now apply digit_not_point.
    now rewrite <- !app_assoc.
Qed.



(** X13: [trim_float] on a finite float that is not zero writes the
    sign, the integer part of the value rounded to three decimals, and
    then the decimals without the zeros at the end, with a point only
    when a decimal is left: at most three decimals, never a zero as the
    last decimal, never a point at the end. *)
Theorem trim_float_finite (s : bool) (m : positive) (e : Z) :
  let n := scaled_round m e 3 in
  let ds := rstrip_chars (lit "0") (digits3 (n mod 1000)) in
  intcpu.trim_float (S754_finite s m e)
  = (if s then lit "-" else [])
      ++ str_of_int (n / 1000) ++ (if is_empty ds then [] else lit "." ++ ds)
  /\ nearest_scaled (Float (S754_finite false m e)) 3 n
  /\ Forall (fun d => is_digit d = true) ds
  /\ List.length ds <= 3
  /\ (forall ds', ds <> ds' ++ lit "0")
  /\ Forall (fun d => is_digit d = true) (str_of_int (n / 1000))
  /\ str_of_int (n / 1000) <> [].
Proof.
  intros n ds.
  assert (Hn : (0 <= n)%Z) by (apply scaled_round_nonneg; lia).
  assert (Hq : (0 <= n / 1000)%Z) by (apply Z.div_pos; lia).
  assert (Hd3 : Forall (fun d => is_digit d = true) (digits3 (n mod 1000))).
  { apply digits3_digits, Z.mod_pos_bound. lia. }
  destruct (str_of_int_digits Hq) as [Hint Hne].
  split; [|split; [|split; [|split; [|split; [|split]]]]]; auto.
  - unfold intcpu.trim_float. cbn [PyFloat.format_3f]. fold n.
    destruct (str_of_int_last (n / 1000)) as [pre [c [E Hc]]].
    rewrite E.
    replace ((if s then lit "-" else []) ++ (pre ++ [c]) ++ lit "." ++ digits3 (n mod 1000))
      with (((if s then lit "-" else []) ++ pre) ++ [c] ++ lit "." ++ digits3 (n mod 1000))
      by (now rewrite <- !app_assoc).
    rewrite (@trimmed_decimals _ c _ Hc Hd3). unfold kept_decimals. fold ds.
    rewrite <- !app_assoc. now destruct ds.
  - apply scaled_round_nearest.
  - now apply rstrip_chars_Forall.
  - subst ds. destruct (rstrip_chars_prefix (lit "0") (digits3 (n mod 1000))) as [w Hw].
    apply (f_equal (@List.length N)) in Hw. rewrite length_app in Hw.
    cbn [digits3 List.length] in Hw. lia.
  - intros ds' E. apply rstrip_chars_last in E. discriminate.
Qed.

(** X14: the frequency formatter never returns the empty string: its
    result is "?", or the input itself, which is then not empty, or a
    text that ends with "GHz". *)
Theorem parse_freqs_never_empty (float_of_str : str -> option float)
  (freqs_raw : str) :
  intcpu.parse_freqs_to_str float_of_str freqs_raw <> []
  /\ ((freqs_raw = [] /\ intcpu.parse_freqs_to_str float_of_str freqs_raw = lit "?")
      \/ (freqs_raw <> [] /\ parsed_values float_of_str freqs_raw = []
          /\ intcpu.parse_freqs_to_str float_of_str freqs_raw = freqs_raw)
      \/ (parsed_values float_of_str freqs_raw <> []
          /\ exists b, intcpu.parse_freqs_to_str float_of_str freqs_raw
                       = b ++ lit "GHz")).
Proof.
  rewrite parse_freqs_to_str_values.
  destruct freqs_raw as [|c raw]; cbn [is_empty].
  - split; [discriminate|]. left. split; reflexivity.
  - destruct (parsed_values float_of_str (c :: raw)) as [|v vs] eqn:E;
      cbn [is_empty_list].
    + split; [discriminate|]. right. left. repeat split. discriminate.
    + cbv zeta.
      destruct (Nat.eqb (List.length (shown_values float_of_str (c :: raw))) 1).
      * split.
        -- intros H. apply app_eq_nil in H as [_ H]. discriminate.
        -- right. right. split; [discriminate|]. eexists. reflexivity.
      * split.
        -- intros H. apply app_eq_nil in H as [_ H]. discriminate.
        -- right. right. split; [discriminate|]. eexists.
           rewrite !app_assoc. reflexivity.
Qed.

(* ================================================================= *)
(** ** Further properties: the written lines *)

Lemma sep_unique (c : N) (a1 a2 b1 b2 : str) :
  ~ In c a1 -> ~ In c a2 -> a1 ++ c :: b1 = a2 ++ c :: b2 -> a1 = a2 /\ b1 = b2.
Proof.
  intros H1 H2 E.
  pose proof (@split_once_spec c a1 b1 H1) as E1.
  pose proof (@split_once_spec c a2 b2 H2) as E2.
  cbn [app] in E1, E2. rewrite E, E2 in E1. now injection E1 as -> ->.
Qed.

(** The line of a row determines the row when the name holds no
    quotation mark and the capacity no space. *)
Lemma line_fields (n1 c1 t1 n2 c2 t2 : str) :
  ~ In dquote n1 -> ~ In dquote n2 -> ~ In 32%N c1 -> ~ In 32%N c2 ->
  [dquote] ++ n1 ++ [dquote] ++ lit " " ++ [dquote] ++ c1 ++ lit " " ++ t1 ++ [dquote]
  = [dquote] ++ n2 ++ [dquote] ++ lit " " ++ [dquote] ++ c2 ++ lit " " ++ t2 ++ [dquote] ->
  n1 = n2 /\ c1 = c2 /\ t1 = t2.
Proof.
  intros Hn1 Hn2 Hc1 Hc2 E. cbn [app] in E. injection E as E.
  apply sep_unique in E as [-> E]; try assumption.
  change (lit " ") with [32%N] in E. cbn [app] in E. injection E as E.
  apply sep_unique in E as [-> E]; try assumption.
  apply app_inv_tail in E. auto.
Qed.

Lemma str_of_int_no_space (z : Z) : ~ In 32%N (str_of_int z).
Proof.
  assert (H : forall d, ~ In 32%N (lit (NilZero.string_of_uint d))).
  { intros d Hin. destruct (nilzero_digits d) as [Hd _].
    rewrite Forall_forall in Hd. apply Hd in Hin. discriminate. }
  unfold str_of_int. destruct z as [|p|p]; cbn [Z.to_int NilZero.string_of_int];
    try apply H.
  change (lit (String "-" (NilZero.string_of_uint (Pos.to_uint p))))
    with (45%N :: lit (NilZero.string_of_uint (Pos.to_uint p))).
  intros [Hin|Hin]; [discriminate|]. now apply H in Hin.
Qed.

Lemma rstrip_chars_In (chars s : str) (c : N) :
  In c (rstrip_chars chars s) -> In c s.
Proof.
  destruct (rstrip_chars_prefix chars s) as [w Hw]. intros H.
  rewrite Hw. apply in_or_app. now left.
Qed.

Lemma format_3f_no_space (x : number) : ~ In 32%N (PyNum.format_3f x).
Proof.
  assert (Hdig : forall l, Forall (fun d => is_digit d = true) l -> ~ In 32%N l).
  { intros l Hl Hin. rewrite Forall_forall in Hl. apply Hl in Hin. discriminate. }
  destruct x as [z | [s | s | | s m e]]; cbn [PyNum.format_3f PyFloat.format_3f].
  - intros H. apply in_app_or in H as [H|H]; [now apply str_of_int_no_space in H|].
    cbn in H. intuition discriminate.
  - destruct s; cbn; intuition discriminate.
  - destruct s; cbn; intuition discriminate.
  - cbn; intuition discriminate.
  - intros H. apply in_app_or in H as [H|H]; [destruct s; cbn in H; intuition discriminate|].
    apply in_app_or in H as [H|H]; [now apply str_of_int_no_space in H|].
    apply in_app_or in H as [H|H]; [cbn in H; intuition discriminate|].
    revert H. apply Hdig, digits3_digits, Z.mod_pos_bound. lia.
Qed.

(** A capacity string holds no space. *)
Lemma capacity_no_space (x : option number) (s : str) :
  am_atgpu._format_memory_capacity x = Ok s -> ~ In 32%N s.
Proof.
  destruct x as [x|]; [|intros [= <-]; cbn; intuition discriminate].
  unfold am_atgpu._format_memory_capacity.
  destruct (PyNum.le_zero x); [intros [= <-]; cbn; intuition discriminate|].
  destruct (PyNum.round x) as [n|e]; cbn [bind]; [|discriminate].
  destruct (PyNum.lt_float _ _); intros [= <-] H;
    apply in_app_or in H as [H|H]; try (cbn in H; intuition discriminate).
  - now apply str_of_int_no_space in H.
  - apply rstrip_chars_In, rstrip_chars_In in H. now apply format_3f_no_space in H.
Qed.

Lemma NoDup_map_on (A B : Type) (f : A -> B) (l : list A) :
  (forall x y, In x l -> In y l -> f x = f y -> x = y) ->
  NoDup l -> NoDup (List.map f l).
Proof.
  intros Hinj Hnd. induction Hnd as [|x l Hx Hnd IH]; [constructor|].
  cbn [List.map]. constructor.
  - intros Hin. apply in_map_iff in Hin as [y [Hy Hin]].
    assert (y = x) by (apply Hinj; [now right|now left|assumption]).
    subst. contradiction.
  - apply IH. intros a b Ha Hb. apply Hinj; now right.
Qed.

(** X16: when no retained name holds a quotation mark, the lines of the
    rows that an exporter writes are pairwise different: after
    [build_unique_sorted_rows] no line of the file is repeated. *)
Theorem written_lines_distinct (casefold_char : N -> str) (lower : str -> str)
  (specs : list dbgpu.GPUSpecification) :
  (forall rows,
      am_atgpu.iter_amd_ati_gpu_rows casefold_char specs = Ok rows ->
      Forall (fun r => ~ In dquote (am_atgpu.name r)) rows ->
      NoDup (List.map am_atgpu.to_line (am_atgpu.build_unique_sorted_rows lower rows)))
  /\ (forall rows,
      nvgpu.iter_nvidia_gpu_rows casefold_char specs = Ok rows ->
      Forall (fun r => ~ In dquote (nvgpu.name r)) rows ->
      NoDup (List.map nvgpu.to_line (nvgpu.build_unique_sorted_rows lower rows))).
Proof.
  split; intros rows Hrows Hq.
  - destruct (@dedup_sort_spec _ am_atgpu.row_key (am_atgpu.sort_key lower)
                am_atgpu_row_key_inj rows) as [Hnd [Hin _]].
    fold (am_atgpu.build_unique_sorted_rows lower rows) in Hnd, Hin.
    apply NoDup_map_on; [|exact Hnd].
    pose proof (am_atgpu_iter_retained casefold_char specs Hrows) as Hret.
    rewrite Forall_forall in Hq, Hret.
    intros x y Hx Hy E. apply Hin in Hx, Hy.
    destruct (Hret x Hx) as [[sx [_ Hsx]] _], (Hret y Hy) as [[sy [_ Hsy]] _].
    unfold am_atgpu._row_from_spec in Hsx, Hsy.
    destruct (am_atgpu._format_memory_capacity (dbgpu.memory_size_gb sx)) as [cx|]
      eqn:Hcx; cbn [bind] in Hsx; [|discriminate].
    destruct (am_atgpu._format_memory_capacity (dbgpu.memory_size_gb sy)) as [cy|]
      eqn:Hcy; cbn [bind] in Hsy; [|discriminate].
    apply capacity_no_space in Hcx, Hcy.
    pose proof (Hq x Hx) as Hqx. pose proof (Hq y Hy) as Hqy.
    injection Hsx as <-. injection Hsy as <-.
    unfold am_atgpu.to_line in E. cbn [am_atgpu.name am_atgpu.memory_capacity
      am_atgpu.memory_type] in *.
    apply line_fields in E as [-> [-> ->]]; auto.
  - destruct (@dedup_sort_spec _ nvgpu.row_key (nvgpu.sort_key lower)
                nvgpu_row_key_inj rows) as [Hnd [Hin _]].
    fold (nvgpu.build_unique_sorted_rows lower rows) in Hnd, Hin.
    apply NoDup_map_on; [|exact Hnd].
    pose proof (nvgpu_iter_retained casefold_char specs Hrows) as Hret.
    rewrite Forall_forall in Hq, Hret.
    intros x y Hx Hy E. apply Hin in Hx, Hy.
    destruct (Hret x Hx) as [[sx [_ Hsx]] _], (Hret y Hy) as [[sy [_ Hsy]] _].
    unfold nvgpu._row_from_spec in Hsx, Hsy.
    rewrite format_memory_capacity_agree in Hsx, Hsy.
    destruct (am_atgpu._format_memory_capacity (dbgpu.memory_size_gb sx)) as [cx|]
      eqn:Hcx; cbn [bind] in Hsx; [|discriminate].
    destruct (am_atgpu._format_memory_capacity (dbgpu.memory_size_gb sy)) as [cy|]
      eqn:Hcy; cbn [bind] in Hsy; [|discriminate].
    apply capacity_no_space in Hcx, Hcy.
    pose proof (Hq x Hx) as Hqx. pose proof (Hq y Hy) as Hqy.
    injection Hsx as <-. injection Hsy as <-.
    unfold nvgpu.to_line in E. cbn [nvgpu.name nvgpu.memory_capacity
      nvgpu.memory_type] in *.
    apply line_fields in E as [-> [-> ->]]; auto.
Qed.

(* ================================================================= *)
(** ** Further properties: [build_lines] *)

Lemma parse_freqs_to_str_nonempty (float_of_str : str -> option float)
  (freqs_raw : str) :
  intcpu.parse_freqs_to_str float_of_str freqs_raw <> [].
Proof.
  rewrite parse_freqs_to_str_values.
  destruct freqs_raw as [|c raw]; cbn [is_empty]; [discriminate|].
  destruct (is_empty_list _); [discriminate|]. cbv zeta.
  destruct (Nat.eqb _ 1); intros H.
  - apply app_eq_nil in H as [_ H]. discriminate.
  - apply app_eq_nil in H as [_ H]. discriminate.
Qed.

Lemma str_of_int_nonempty (z : Z) : str_of_int z <> [].
Proof. destruct (str_of_int_last z) as [pre [c [-> _]]]. now destruct pre. Qed.

Section BuildLinesFacts.
Variable world : Type.
Variable net_error : Type.
Variable wikipedia_qid :
  str -> world -> (option (str * str) + net_error) * world.
Variable wdqs_fetch_specs :
  list str -> world -> (PyDict.dict str intcpu.cpu_spec + net_error) * world.
Variable sleep : world -> world.
Variable float_of_str : str -> option float.

(** A line has three quoted fields: the name, the counts of cores and
    threads before "C" and "T", each a number or "?", and the frequency
    text. *)
Lemma cpu_line_shape (name_to_qid : PyDict.dict str (option str))
  (specs : PyDict.dict str intcpu.cpu_spec) (name : str) :
  exists c t freq,
    intcpu.cpu_line float_of_str name_to_qid specs name
    = intcpu.quoted name ++ lit " "
        ++ intcpu.quoted (c ++ lit "C" ++ t ++ lit "T") ++ lit " "
        ++ intcpu.quoted freq
    /\ (c = lit "?" \/ exists n : Z, c = str_of_int n)
    /\ (t = lit "?" \/ exists n : Z, t = str_of_int n)
    /\ freq <> [].
Proof.
  unfold intcpu.cpu_line.
  destruct (PyDict.get str_eqb name_to_qid name) as [[[|c q]|]|];
    try (exists (lit "?"), (lit "?"), (lit "?");
         split; [reflexivity|repeat split; try (now left); discriminate]).
  cbv zeta. eexists _, _, _. split; [reflexivity|].
  split; [|split].
  - destruct (PyDict.get str_eqb specs (c :: q)) as [r|]; [|now left].
    destruct (intcpu.cores r) as [n|]; [right; now exists n|now left].
  - destruct (PyDict.get str_eqb specs (c :: q)) as [r|]; [|now left].
    destruct (intcpu.threads r) as [n|]; [right; now exists n|now left].
  - apply parse_freqs_to_str_nonempty.
Qed.

Lemma build_lines_map (cpu_names : list str) (w w' : world) (lines : list str) :
  intcpu.build_lines wikipedia_qid wdqs_fetch_specs sleep float_of_str cpu_names w
  = (inl lines, w') ->
  exists name_to_qid specs,
    lines = List.map (intcpu.cpu_line float_of_str name_to_qid specs) cpu_names.
Proof.
  unfold intcpu.build_lines.
  destruct (intcpu.collect_qids wikipedia_qid cpu_names [] w) as [[d|e] w1];
    [|discriminate].
  destruct (intcpu.chunked _ 200) as [batches|e]; [|discriminate].
  destruct (intcpu.fetch_batches wdqs_fetch_specs sleep batches [] w1)
    as [[specs|e] w2]; [|discriminate].
  intros [= <- _]. now exists d, specs.
Qed.

Lemma setitem_none_values (d : PyDict.dict str (option str)) (name : str) :
  Forall (fun e => snd e = None) d ->
  Forall (fun e => snd e = None) (PyDictOps.setitem str_eqb d name None).
Proof.
  induction 1 as [|[k v] d Hk Hd IH]; cbn [PyDictOps.setitem].
  - repeat constructor.
  - destruct (str_eqb k name); constructor; auto.
Qed.

Lemma collect_qids_none (cpu_names : list str) :
  (forall name w0, In name cpu_names -> fst (wikipedia_qid name w0) = inl None) ->
  forall d w,
    Forall (fun e => snd e = None) d ->
    exists d',
      intcpu.collect_qids wikipedia_qid cpu_names d w
      = (inl d', fold_left (fun w0 name => snd (wikipedia_qid name w0)) cpu_names w)
      /\ Forall (fun e => snd e = None) d'.
Proof.
  induction cpu_names as [|name names IH]; intros Hnone d w Hd.
  - exists d. split; [reflexivity|assumption].
  - cbn [intcpu.collect_qids fold_left].
    pose proof (Hnone name w (or_introl eq_refl)) as Hw.
    destruct (wikipedia_qid name w) as [r w1]. cbn [fst snd] in *. subst r.
    apply IH.
    + intros n w0 Hn. apply Hnone. now right.
    + now apply setitem_none_values.
Qed.

Lemma get_value_In (V : Type) (d : PyDict.dict str V) (k : str) (v : V) :
  PyDict.get str_eqb d k = Some v -> In v (PyDict.values d).
Proof.
  induction d as [|[k' v'] d IH]; cbn [PyDict.get PyDict.values List.map snd];
    [discriminate|].
  destruct (str_eqb k' k); [intros [= ->]; now left|].
  intros H. right. now apply IH.
Qed.

End BuildLinesFacts.

(** X17: when [build_lines] returns, it returns one line for each name,
    in the order of the names; each line is the quoted name, a space,
    the quoted counts (the cores, in decimal, or "?", then "C", then the
    threads, in decimal, or "?", then "T"), a space and the quoted
    frequency text, which is never empty. This holds whatever the two
    look-ups answer. *)
Theorem build_lines_lines (world net_error : Type)
  (wikipedia_qid : str -> world -> (option (str * str) + net_error) * world)
  (wdqs_fetch_specs :
     list str -> world -> (PyDict.dict str intcpu.cpu_spec + net_error) * world)
  (sleep : world -> world) (float_of_str : str -> option float)
  (cpu_names : list str) (w w' : world) (lines : list str)
  (Hrun : intcpu.build_lines wikipedia_qid wdqs_fetch_specs sleep float_of_str
            cpu_names w = (inl lines, w')) :
  List.length lines = List.length cpu_names
  /\ Forall2
       (fun name line =>
          exists c t freq,
            line = [dquote] ++ name ++ [dquote] ++ lit " "
                     ++ [dquote] ++ c ++ lit "C" ++ t ++ lit "T" ++ [dquote] ++ lit " "
                     ++ [dquote] ++ freq ++ [dquote]
            /\ (c = lit "?" \/ exists n : Z, c = str_of_int n)
            /\ (t = lit "?" \/ exists n : Z, t = str_of_int n)
            /\ freq <> [])
       cpu_names lines.
Proof.
  apply build_lines_map in Hrun as [d [specs ->]].
  split; [apply length_map|].
  induction cpu_names as [|name names IH]; cbn [List.map]; constructor;
    [|exact IH].
  destruct (cpu_line_shape float_of_str d specs name) as (c & t & freq & -> & Hc & Ht & Hf).
  exists c, t, freq. split; [|auto].
  unfold intcpu.quoted. now rewrite <- !app_assoc.
Qed.

(** Two names, the first known with four cores, the second unknown. *)
Lemma build_lines_lines_witness :
  List.length
    [ intcpu.quoted (lit "Core i5") ++ lit " " ++ intcpu.quoted (lit "4C?T")
        ++ lit " " ++ intcpu.quoted (lit "3.6GHz");
      intcpu.quoted (lit "Nonesuch") ++ lit " " ++ intcpu.quoted (lit "?C?T")
        ++ lit " " ++ intcpu.quoted (lit "?") ]
  = List.length [lit "Core i5"; lit "Nonesuch"].
Proof.
  apply (@build_lines_lines unit unit
           (fun name w =>
              (inl (if str_eqb name (lit "Core i5")
                    then Some (lit "Q1", lit "en") else None), w))
           (fun qids w =>
              (inl [(lit "Q1",
                     intcpu.Build_cpu_spec (lit "Core i5") (Some 4%Z) None
                       (lit "3.6|http://www.wikidata.org/entity/Q3276763"))], w))
           (fun w => w) intcpu.decimal_float_of_str
           [lit "Core i5"; lit "Nonesuch"] tt tt).
  vm_compute. reflexivity.
Defined.

(** X18: when the first look-up finds none of the names, [build_lines]
    returns the line ["name" "?C?T" "?"] for each name, sends no query
    and makes no pause: the world it leaves is the one the look-ups of
    the names left, one after the other. *)
Theorem build_lines_nothing_found (world net_error : Type)
  (wikipedia_qid : str -> world -> (option (str * str) + net_error) * world)
  (wdqs_fetch_specs :
     list str -> world -> (PyDict.dict str intcpu.cpu_spec + net_error) * world)
  (sleep : world -> world) (float_of_str : str -> option float)
  (cpu_names : list str) (w : world)
  (Hnone : forall name w0,
      In name cpu_names -> fst (wikipedia_qid name w0) = inl None) :
  intcpu.build_lines wikipedia_qid wdqs_fetch_specs sleep float_of_str cpu_names w
  = (inl (List.map
            (fun name =>
               intcpu.quoted name ++ lit " " ++ intcpu.quoted (lit "?C?T")
                 ++ lit " " ++ intcpu.quoted (lit "?"))
            cpu_names),
     fold_left (fun w0 name => snd (wikipedia_qid name w0)) cpu_names w).
Proof.
  unfold intcpu.build_lines.
  destruct (collect_qids_none wikipedia_qid cpu_names Hnone (d := []) w)
    as [d [-> Hd]]; [constructor|].
  assert (Hq : intcpu.found_qids d = []).
  { unfold intcpu.found_qids, PyDict.values.
    induction Hd as [|[k v] d Hk _ IH]; [reflexivity|].
    cbn [List.map flat_map snd] in *. subst v. exact IH. }
  rewrite Hq. cbn [intcpu.sorted_set fold_left sorted intcpu.chunked].
  cbn. f_equal. f_equal. apply map_ext. intros name.
  unfold intcpu.cpu_line.
  destruct (PyDict.get str_eqb d name) as [[q|]|] eqn:G; try reflexivity.
  apply get_value_In in G. rewrite Forall_forall in Hd.
  unfold PyDict.values in G. apply in_map_iff in G as [e [He Hin]].
  apply Hd in Hin. congruence.
Qed.

Lemma build_lines_nothing_found_witness :
  intcpu.build_lines (net_error := unit)
    (fun (name : str) (w : nat) => (inl None, S w))
    (fun qids w => (inl [], w)) (fun w => w) intcpu.decimal_float_of_str
    [lit "Nonesuch"] 0
  = (inl [ intcpu.quoted (lit "Nonesuch") ++ lit " " ++ intcpu.quoted (lit "?C?T")
             ++ lit " " ++ intcpu.quoted (lit "?") ], 1).
Proof.
  apply (@build_lines_nothing_found nat unit
           (fun (name : str) (w : nat) => (inl None, S w))
           (fun qids w => (inl [], w)) (fun w => w) intcpu.decimal_float_of_str
           [lit "Nonesuch"] 0).
  reflexivity.
Defined.
